(** * gpm: command dispatch, lifecycle and process relay

    A shallow embedding of [gpm.go] (the entry point of the Go package
    manager front-end) together with the properties its specification
    states about it.

    Go strings are byte strings: they are modelled by [string], whose
    characters are the 256 values of [ascii].  Go's [int] and [rune] are
    modelled by [Z]; the only place where the width of a machine integer
    matters (the mask computation of the UTF-8 decoder) writes the
    wrap-around out. *)

From Stdlib Require Import ZArith List Bool Ascii String Lia Permutation.
Import ListNotations.

Open Scope string_scope.
Open Scope Z_scope.

Set Implicit Arguments.

(* ================================================================== *)
(** * Definitions *)
(* ================================================================== *)

(** ** Go string primitives *)

Module GoStrings.

(** [len(s)] *)
Definition len (s : string) : Z := Z.of_nat (String.length s).

(** [s[i]], the byte at index [i] (only used inside bounds). *)
Definition byte_at (s : string) (i : nat) : Z :=
  match String.get i s with
  | Some c => Z.of_N (N_of_ascii c)
  | None => 0
  end.

(** The byte with a given value. *)
Definition byte_of (z : Z) : ascii := ascii_of_N (Z.to_N z).

(** [s[:i]] and [s[i:]] for [0 <= i <= len(s)]. *)
Definition slice_to (s : string) (i : Z) : string :=
  String.substring 0 (Z.to_nat i) s.

Definition slice_from (s : string) (i : Z) : string :=
  String.substring (Z.to_nat i) (String.length s - Z.to_nat i) s.

(** [strings.Index(s, substr)]: the index of the first instance of
    [substr] in [s], or [-1] when there is none. *)
Fixpoint index_from (i : Z) (s substr : string) : Z :=
  if String.prefix substr s then i
  else match s with
       | EmptyString => -1
       | String _ s' => index_from (i + 1) s' substr
       end.

Definition Index (s substr : string) : Z := index_from 0 s substr.

(** [strings.Replace(s, old, new, -1)] for one-byte [old] and [new]. *)
Fixpoint ReplaceByte (s : string) (old new : ascii) : string :=
  match s with
  | EmptyString => EmptyString
  | String c s' =>
      String (if Ascii.eqb c old then new else c) (ReplaceByte s' old new)
  end.

(** [strings.Split(s, sep)] for a non-empty separator: the pieces of [s]
    between the successive, non-overlapping instances of [sep]. *)
Fixpoint split_go (acc : string) (s sep : string) (fuel : nat)
  : list string :=
  match fuel with
  | O => [acc ++ s]
  | S fuel' =>
      match s with
      | EmptyString => [acc]
      | String c s' =>
          if String.prefix sep s
          then acc :: split_go "" (String.substring (String.length sep)
                                     (String.length s - String.length sep) s)
                        sep fuel'
          else split_go (acc ++ String c "") s' sep fuel'
      end
  end.

Definition Split (s sep : string) : list string :=
  split_go "" s sep (String.length s).

(** The property "the byte [c] does not occur in [s]". *)
Definition free_of (c : ascii) (s : string) : Prop :=
  ~ In c (list_ascii_of_string s).

End GoStrings.

Import GoStrings.

(** ** The part of [unicode/utf8] that [capitalize] relies on *)

Module utf8.

Definition RuneError : Z := 0xFFFD.
Definition MaxRune : Z := 0x10FFFF.
Definition surrogateMin : Z := 0xD800.
Definition surrogateMax : Z := 0xDFFF.

Definition tx : Z := 0x80.
Definition t2 : Z := 0xC0.
Definition t3 : Z := 0xE0.
Definition t4 : Z := 0xF0.
Definition maskx : Z := 0x3F.
Definition mask2 : Z := 0x1F.
Definition mask3 : Z := 0x0F.
Definition mask4 : Z := 0x07.
Definition rune1Max : Z := 0x7F.
Definition rune2Max : Z := 0x7FF.
Definition rune3Max : Z := 0xFFFF.
Definition locb : Z := 0x80.
Definition hicb : Z := 0xBF.

(** Information about the first byte of an encoding: [xx] invalid,
    [as_] ASCII, otherwise the size in the low three bits and the index
    of the accept range of the second byte in the high four. *)
Definition xx : Z := 0xF1.
Definition as_ : Z := 0xF0.

Definition first (b : Z) : Z :=
  if b <? 0x80 then as_
  else if b <? 0xC2 then xx
  else if b <? 0xE0 then 0x02
  else if b =? 0xE0 then 0x13
  else if b <? 0xED then 0x03
  else if b =? 0xED then 0x23
  else if b <? 0xF0 then 0x03
  else if b =? 0xF0 then 0x34
  else if b <? 0xF4 then 0x04
  else if b =? 0xF4 then 0x44
  else xx.

Definition acceptRanges (i : Z) : Z * Z :=
  if i =? 0 then (locb, hicb)
  else if i =? 1 then (0xA0, hicb)
  else if i =? 2 then (locb, 0x9F)
  else if i =? 3 then (0x90, hicb)
  else if i =? 4 then (locb, 0x8F)
  else (0, 0).

(** Conversion to a signed 32-bit [rune], wrapping around. *)
Definition int32 (z : Z) : Z := (z + 2 ^ 31) mod 2 ^ 32 - 2 ^ 31.

(** Conversion to [byte]. *)
Definition byte (z : Z) : Z := z mod 256.

(** [utf8.DecodeRuneInString(s)]: the first rune of [s] and its width in
    bytes; [(RuneError, 0)] for the empty string and [(RuneError, 1)] for
    an invalid encoding. *)
Definition DecodeRuneInString (s : string) : Z * Z :=
  let n := len s in
  if n <? 1 then (RuneError, 0) else
  let s0 := byte_at s 0 in
  let x := first s0 in
  if x >=? as_ then
    let mask := Z.shiftr (int32 (Z.shiftl x 31)) 31 in
    (Z.lor (Z.ldiff s0 mask) (Z.land RuneError mask), 1)
  else
  let sz := Z.land x 7 in
  let accept := acceptRanges (Z.shiftr x 4) in
  if n <? sz then (RuneError, 1) else
  let s1 := byte_at s 1 in
  if (s1 <? fst accept) || (snd accept <? s1) then (RuneError, 1) else
  if sz <=? 2 then
    (Z.lor (Z.shiftl (Z.land s0 mask2) 6) (Z.land s1 maskx), 2)
  else
  let s2 := byte_at s 2 in
  if (s2 <? locb) || (hicb <? s2) then (RuneError, 1) else
  if sz <=? 3 then
    (Z.lor (Z.lor (Z.shiftl (Z.land s0 mask3) 12)
                  (Z.shiftl (Z.land s1 maskx) 6))
           (Z.land s2 maskx), 3)
  else
  let s3 := byte_at s 3 in
  if (s3 <? locb) || (hicb <? s3) then (RuneError, 1) else
  (Z.lor (Z.lor (Z.lor (Z.shiftl (Z.land s0 mask4) 18)
                       (Z.shiftl (Z.land s1 maskx) 12))
                (Z.shiftl (Z.land s2 maskx) 6))
         (Z.land s3 maskx), 4).

(** The UTF-8 encoding of a rune, as the conversion [string(r)] computes
    it: values that are not Unicode scalar values (out of range or
    surrogate halves) are encoded as [RuneError]. *)
Definition encode3 (r : Z) : string :=
  String (byte_of (Z.lor t3 (byte (Z.shiftr r 12))))
 (String (byte_of (Z.lor tx (Z.land (byte (Z.shiftr r 6)) maskx)))
 (String (byte_of (Z.lor tx (Z.land (byte r) maskx))) "")).

Definition runeString (r : Z) : string :=
  if (0 <=? r) && (r <=? rune1Max) then
    String (byte_of (byte r)) ""
  else if (0 <=? r) && (r <=? rune2Max) then
    String (byte_of (Z.lor t2 (byte (Z.shiftr r 6))))
   (String (byte_of (Z.lor tx (Z.land (byte r) maskx))) "")
  else if (r <? 0) || (MaxRune <? r)
          || ((surrogateMin <=? r) && (r <=? surrogateMax)) then
    encode3 RuneError
  else if r <=? rune3Max then
    encode3 r
  else
    String (byte_of (Z.lor t4 (byte (Z.shiftr r 18))))
   (String (byte_of (Z.lor tx (Z.land (byte (Z.shiftr r 12)) maskx)))
   (String (byte_of (Z.lor tx (Z.land (byte (Z.shiftr r 6)) maskx)))
   (String (byte_of (Z.lor tx (Z.land (byte r) maskx))) ""))).

(** A Unicode scalar value: a code point that is not a surrogate half. *)
Definition scalar (r : Z) : Prop :=
  0 <= r <= MaxRune /\ ~ (surrogateMin <= r <= surrogateMax).

End utf8.

(** ** [capitalize] *)

Section Capitalize.

(** [unicode.ToTitle]: the title-case mapping of the Unicode tables. *)
Variable ToTitle : Z -> Z.

Definition capitalize (s : string) : string :=
  if String.eqb s "" then s
  else
    let '(r, n) := utf8.DecodeRuneInString s in
    utf8.runeString (ToTitle r) ++ slice_from s n.

End Capitalize.

(** ** Commands *)

Section Commands.

(** The function values stored in [Command.Run]. *)
Variable Handler : Type.

Record Command : Type := mkCommand {
  Run : option Handler;
  UsageLine : string;
  Short : string;
  Long : string;
  Flags : list (string * bool)
}.

(** [Name] returns the command's name: the first word in the usage
    line. *)
Definition Name (c : Command) : string :=
  let name := UsageLine c in
  let i := Index name " " in
  if i >=? 0 then slice_to name i else name.

(** [Runnable] reports whether the command can be run. *)
Definition Runnable (c : Command) : bool :=
  match Run c with Some _ => true | None => false end.

Definition set_UsageLine (c : Command) (u : string) : Command :=
  mkCommand (Run c) u (Short c) (Long c) (Flags c).

Definition set_texts (c : Command) (short long : string) : Command :=
  mkCommand (Run c) (UsageLine c) short long (Flags c).

End Commands.

Arguments mkCommand {Handler}.

(** ** Text constants *)

(** The line feed, [\n] in the source's string literals. *)
Definition nl : string := String "010" "".

(** The per-command help template. *)
Definition helpTemplate : string :=
  "{{if .Runnable}}usage: gpm {{.UsageLine}}" ++ nl ++ nl
  ++ "{{end}}{{.Long | trim}}" ++ nl.

(** ** The process: globals, outcomes and the monad of the entry point *)

Record tomlConfig : Type := mkConfig {
  Title : string;
  Version : string;
  Username : string;
  Password : string;
  Lang : string
}.

(** The two output streams of the process. *)
Inductive Stream : Type := OsStdout | OsStderr.

(** How a call can end: it returns, the process is ended by [os.Exit], a
    panic unwinds, or it never comes back. *)
Inductive Outcome (A : Type) : Type :=
| Returned (a : A)
| Exited (code : Z)
| Panicked
| Diverged.

Arguments Exited {A}.
Arguments Panicked {A}.
Arguments Diverged {A}.

(** What [text/template] does with a template text and a data value: the
    text does not parse, execution fails after emitting some output, or
    the whole output is emitted. *)
Inductive TmplResult : Type :=
| ParseError
| ExecError (partial : string)
| Rendered (out : string).

Section Process.

(** Function values held by [Command.Run] and by [atexitFuncs], and the
    state of everything outside this file (other packages, the
    operating system) that such functions may read and change. *)
Variables Handler Action Ext : Type.

(** The package-level variables, with the bytes written so far to the
    two output streams. *)
Record Globals : Type := mkGlobals {
  config : tomlConfig;
  appPath : string;
  commands : list (Command Handler);
  exitStatus : Z;
  usageTemplate : string;
  atexitFuncs : list Action;
  Stdout : string;
  Stderr : string;
  ext : Ext
}.

Definition set_config (v : tomlConfig) (g : Globals) : Globals :=
  mkGlobals v (appPath g) (commands g) (exitStatus g) (usageTemplate g)
            (atexitFuncs g) (Stdout g) (Stderr g) (ext g).
Definition set_appPath (v : string) (g : Globals) : Globals :=
  mkGlobals (config g) v (commands g) (exitStatus g) (usageTemplate g)
            (atexitFuncs g) (Stdout g) (Stderr g) (ext g).
Definition set_commands (v : list (Command Handler)) (g : Globals)
  : Globals :=
  mkGlobals (config g) (appPath g) v (exitStatus g) (usageTemplate g)
            (atexitFuncs g) (Stdout g) (Stderr g) (ext g).
Definition set_exitStatus (v : Z) (g : Globals) : Globals :=
  mkGlobals (config g) (appPath g) (commands g) v (usageTemplate g)
            (atexitFuncs g) (Stdout g) (Stderr g) (ext g).
Definition set_usageTemplate (v : string) (g : Globals) : Globals :=
  mkGlobals (config g) (appPath g) (commands g) (exitStatus g) v
            (atexitFuncs g) (Stdout g) (Stderr g) (ext g).
Definition set_atexitFuncs (v : list Action) (g : Globals) : Globals :=
  mkGlobals (config g) (appPath g) (commands g) (exitStatus g)
            (usageTemplate g) v (Stdout g) (Stderr g) (ext g).
Definition set_Stdout (v : string) (g : Globals) : Globals :=
  mkGlobals (config g) (appPath g) (commands g) (exitStatus g)
            (usageTemplate g) (atexitFuncs g) v (Stderr g) (ext g).
Definition set_Stderr (v : string) (g : Globals) : Globals :=
  mkGlobals (config g) (appPath g) (commands g) (exitStatus g)
            (usageTemplate g) (atexitFuncs g) (Stdout g) v (ext g).

(** The data a template is executed on. *)
Inductive TData : Type :=
| DCommands (cs : list (Command Handler))
| DCommand (c : Command Handler).

(** The calls this file makes that the properties speak about: a
    command handler, the shutdown point [exit], a cleanup action. *)
Inductive Call : Type :=
| CallRun (c : Command Handler) (args : list string)
| CallExit
| CallCleanup (f : Action).

(** Everything the file takes from outside: the behaviour of the
    function values, of the imported packages and of the operating
    system. *)
Record Runtime : Type := mkRuntime {
  (** [h(cmd, args)] for a handler [h] *)
  run_handler : Handler -> Command Handler -> list string ->
                Globals -> Outcome unit * Globals;
  (** [f()] for a cleanup action [f] *)
  run_action : Action -> Globals -> Outcome unit * Globals;
  (** [text/template] with the functions [trim] and [capitalize] *)
  template : string -> TData -> TmplResult;
  (** the verbs [%q] and [%#q] of [fmt] *)
  fmt_q : string -> string;
  fmt_sharp_q : string -> string;
  (** [strings.TrimSpace] *)
  TrimSpace : string -> string;
  (** [exec.LookPath]: the path found, empty on an error *)
  LookPath : string -> string;
  (** [runtime.GOOS == "windows"] *)
  windows : bool;
  (** [filepath.Dir] *)
  Dir : string -> string;
  (** [toml.DecodeFile(path, &config)]: the configuration after the
      call and the error, if any *)
  DecodeFile : string -> tomlConfig -> tomlConfig * option string;
  (** [os.Open] followed by [Stat] and [Read] into a buffer of the
      file's size: the buffer, or the error of [os.Open] *)
  ReadFile : string -> string + string
}.

(** The globals and the calls made so far. *)
Record World : Type := mkWorld {
  globals : Globals;
  calls : list Call
}.

Definition M (A : Type) : Type := World -> Outcome A * World.

Definition ret {A} (a : A) : M A := fun w => (Returned a, w).

Definition bind {A B} (m : M A) (k : A -> M B) : M B :=
  fun w =>
    match m w with
    | (Returned a, w') => k a w'
    | (Exited c, w') => (Exited c, w')
    | (Panicked, w') => (Panicked, w')
    | (Diverged, w') => (Diverged, w')
    end.

End Process.

Arguments ret {Handler Action Ext A}.
Arguments bind {Handler Action Ext A B}.
Arguments DCommands {Handler}.
Arguments DCommand {Handler}.
Arguments CallRun {Handler Action}.
Arguments CallExit {Handler Action}.
Arguments CallCleanup {Handler Action}.

Notation "x <- m ;; k" := (bind m (fun x => k))
  (at level 61, m at next level, right associativity).
Notation "m ;; k" := (bind m (fun _ => k))
  (at level 61, right associativity).

(** ** The functions of [gpm.go] *)

Section Program.

Variables Handler Action Ext : Type.
Variable rt : Runtime Handler Action Ext.

Local Abbreviation Globals := (Globals Handler Action Ext).
Local Abbreviation World := (World Handler Action Ext).
Local Abbreviation M := (M Handler Action Ext).
Local Abbreviation Command := (Command Handler).

(** *** Primitive steps *)

Definition gets {A} (f : Globals -> A) : M A :=
  fun w => (Returned (f (globals w)), w).

Definition modify (f : Globals -> Globals) : M unit :=
  fun w => (Returned tt, mkWorld (f (globals w)) (calls w)).

(** [os.Exit(code)] *)
Definition os_Exit (code : Z) : M unit := fun w => (Exited code, w).

Definition panic : M unit := fun w => (Panicked, w).

(** Recording a call. *)
Definition record (c : Call Handler Action) : M unit :=
  fun w => (Returned tt, mkWorld (globals w) (calls w ++ [c])).

(** Running a function value: it acts on the globals only. *)
Definition call (f : Globals -> Outcome unit * Globals) : M unit :=
  fun w => let '(o, g) := f (globals w) in (o, mkWorld g (calls w)).

(** Writing bytes to [os.Stdout] or [os.Stderr]. *)
Definition write (w : Stream) (s : string) : M unit :=
  match w with
  | OsStdout => modify (fun g => set_Stdout (Stdout g ++ s) g)
  | OsStderr => modify (fun g => set_Stderr (Stderr g ++ s) g)
  end.

(** *** [Command.Usage] *)

Definition Usage (c : Command) : M unit :=
  write OsStderr ("usage: " ++ UsageLine c ++ nl ++ nl) ;;
  write OsStderr (TrimSpace rt (Long c) ++ nl) ;;
  os_Exit 2.

(** *** Initialization *)

Definition getAppPath : M bool :=
  modify (set_appPath (LookPath rt "gpm")) ;;
  p <- gets (@appPath _ _ _) ;;
  if len p =? 0 then
    write OsStdout
      "getAppPath(): Unable to indicate current execute path." ;;
    ret false
  else
    (if windows rt
     then modify (set_appPath (ReplaceByte (Dir rt p) "\" "/" ++ "/"))
     else ret tt) ;;
    ret true.

(** The loop of [loadUsage] over the commands: [done] are the commands
    already given their texts, [todo] the ones still to visit. *)
Fixpoint loadUsage_range (lang path : string) (done todo : list Command)
  : M bool :=
  match todo with
  | [] => ret true
  | cmd :: todo' =>
      match ReadFile rt (path ++ "i18n/" ++ lang ++ "/usage_"
                              ++ Name cmd ++ ".txt") with
      | inr err =>
          write OsStdout ("loadUsage(): Fail to load usage(" ++ Name cmd
                          ++ "): " ++ err ++ "." ++ nl) ;;
          ret false
      | inl usageBytes =>
          let usages := Split usageBytes "|||" in
          if Z.of_nat (List.length usages) <? 2 then
            write OsStdout ("loadUsage(): nacceptable usage file: "
                            ++ Name cmd ++ "." ++ nl) ;;
            ret false
          else
            let cmd' := set_texts cmd (nth 0 usages "") (nth 1 usages "") in
            modify (set_commands (done ++ cmd' :: todo')) ;;
            loadUsage_range lang path (done ++ [cmd']) todo'
      end
  end.

Definition loadUsage (lang path : string) : M bool :=
  match ReadFile rt (path ++ "i18n/" ++ lang ++ "/usage.tpl") with
  | inr err =>
      write OsStdout ("loadUsage(): Fail to load main usage: " ++ err
                      ++ "." ++ nl) ;;
      ret false
  | inl usageBytes =>
      modify (set_usageTemplate usageBytes) ;;
      cs <- gets (@commands _ _ _) ;;
      loadUsage_range lang path [] cs
  end.

Definition initialize : M bool :=
  ok <- getAppPath ;;
  if negb ok then ret false else
  p <- gets (@appPath _ _ _) ;;
  cfg <- gets (@config _ _ _) ;;
  let '(cfg', err) := DecodeFile rt (p ++ "conf/gpm.toml") cfg in
  modify (set_config cfg') ;;
  match err with
  | Some e => write OsStdout (e ++ nl) ;; ret false
  | None =>
      ok <- loadUsage (Lang cfg') p ;;
      if negb ok then ret false else
      (* os.MkdirAll of the bundle and snapshot directories: nothing
         this file reads afterwards depends on them *)
      ret true
  end.

(** *** The exit status *)

Definition setExitStatus (n : Z) : M unit :=
  modify (fun g => if exitStatus g <? n then set_exitStatus n g else g).

(** *** Templates *)

Definition tmpl (w : Stream) (text : string) (data : TData Handler)
  : M unit :=
  match template rt text data with
  | ParseError => panic
  | ExecError partial => write w partial ;; panic
  | Rendered out => write w out
  end.

Definition printUsage (w : Stream) : M unit :=
  text <- gets (@usageTemplate _ _ _) ;;
  cs <- gets (@commands _ _ _) ;;
  tmpl w text (DCommands cs).

Definition usage : M unit :=
  printUsage OsStderr ;;
  os_Exit 2.

(** *** [help] *)

(** The loop of [help] over the commands: [true] when a command of that
    name was found, its help printed and [help] returned. *)
Fixpoint help_range (cs : list Command) (arg : string) : M bool :=
  match cs with
  | [] => ret false
  | cmd :: cs' =>
      if String.eqb (Name cmd) arg then
        tmpl OsStdout helpTemplate (DCommand cmd) ;;
        ret true
      else help_range cs' arg
  end.

Definition help (args : list string) : M unit :=
  if Z.of_nat (List.length args) =? 0 then
    printUsage OsStdout
  else
    (if negb (Z.of_nat (List.length args) =? 1) then
       write OsStderr ("usage: gpm help command" ++ nl ++ nl
                       ++ "Too many arguments given." ++ nl) ;;
       os_Exit 2
     else ret tt) ;;
    let arg := hd "" args in
    cs <- gets (@commands _ _ _) ;;
    found <- help_range cs arg ;;
    if found then ret tt else
    write OsStderr ("Unknown help topic " ++ fmt_sharp_q rt arg
                    ++ ".  Run 'gpm help'." ++ nl) ;;
    os_Exit 2.

(** *** The cleanup chain and the shutdown point *)

Definition atexit (f : Action) : M unit :=
  modify (fun g => set_atexitFuncs (atexitFuncs g ++ [f]) g).

Fixpoint exit_range (fs : list Action) : M unit :=
  match fs with
  | [] => ret tt
  | f :: fs' =>
      record (CallCleanup f) ;;
      call (run_action rt f) ;;
      exit_range fs'
  end.

Definition exit : M unit :=
  record CallExit ;;
  fs <- gets (@atexitFuncs _ _ _) ;;
  exit_range fs ;;
  status <- gets (@exitStatus _ _ _) ;;
  os_Exit status.

(** *** [main] *)

(** The loop of [main] over the commands: [true] when [main] returned
    from inside the loop. *)
Fixpoint main_range (cs : list Command) (arg0 : string)
         (rest : list string) : M bool :=
  match cs with
  | [] => ret false
  | cmd :: cs' =>
      if String.eqb (Name cmd) arg0 then
        match Run cmd with
        | Some h =>
            record (CallRun cmd rest) ;;
            call (run_handler rt h cmd rest) ;;
            exit ;;
            ret true
        | None => main_range cs' arg0 rest
        end
      else main_range cs' arg0 rest
  end.

(** [args] is [os.Args[1:]]. *)
Definition main (args : list string) : M unit :=
  ok <- initialize ;;
  if negb ok then ret tt else
  if Z.of_nat (List.length args) <? 1 then
    usage ;;
    ret tt
  else
  let arg0 := hd "" args in
  if String.eqb arg0 "help" then
    help (tl args) ;;
    ret tt
  else
  cs <- gets (@commands _ _ _) ;;
  returned <- main_range cs arg0 (tl args) ;;
  if returned then ret tt else
  write OsStderr ("gpm: unknown subcommand " ++ fmt_q rt arg0 ++ nl
                  ++ "Run 'gpm help' for usage." ++ nl) ;;
  setExitStatus 2 ;;
  exit.

(** The status the process ends with: the argument of [os.Exit], [0]
    when [main] returns, [2] after a panic. *)
Definition exit_code (o : Outcome unit) : option Z :=
  match o with
  | Returned _ => Some 0
  | Exited c => Some c
  | Panicked => Some 2
  | Diverged => None
  end.

(** The package-level variables when the process starts, for a given
    registry and outside state. *)
Definition start (cs : list Command) (e : Ext) : World :=
  mkWorld (mkGlobals (mkConfig "" "" "" "" "") "" cs 0 "" [] "" "" e) [].

(** A run of the process. *)
Definition run (cs : list Command) (e : Ext) (args : list string)
  : Outcome unit * World :=
  main args (start cs e).

End Program.

(** ** Notions the properties are stated with *)

(** The outcome of a call that did not return, seen at another type. *)
Definition abort {A B : Type} (o : Outcome A) : Outcome B :=
  match o with
  | Returned _ => Diverged
  | Exited c => Exited c
  | Panicked => Panicked
  | Diverged => Diverged
  end.

Section Derived.

Variables Handler Action Ext : Type.
Variable rt : Runtime Handler Action Ext.

(** A sequence of calls [setExitStatus(n)], one after the other. *)
Fixpoint setExitStatus_all (ns : list Z) : M Handler Action Ext unit :=
  match ns with
  | [] => ret tt
  | n :: ns' => setExitStatus n ;; setExitStatus_all ns'
  end.

(** A sequence of calls [atexit(f)], one after the other. *)
Fixpoint atexit_all (fs : list Action) : M Handler Action Ext unit :=
  match fs with
  | [] => ret tt
  | f :: fs' => atexit f ;; atexit_all fs'
  end.

(** The globals after the actions [fs] have run one after the other. *)
Definition after_actions (fs : list Action) (g : Globals Handler Action Ext)
  : Globals Handler Action Ext :=
  fold_left (fun g f => snd (run_action rt f g)) fs g.

(** Every action of [fs] returns, from whatever state it is called in. *)
Definition all_return (fs : list Action) : Prop :=
  forall f g, In f fs -> fst (run_action rt f g) = Returned tt.

(** Two registries that differ at most in the texts of their commands. *)
Definition same_commands (cs cs' : list (Command Handler)) : Prop :=
  Forall2 (fun c c' => Run c = Run c' /\ UsageLine c = UsageLine c'
                       /\ Flags c = Flags c') cs cs'.

(** What initialization leaves alone: everything but the configuration,
    the application path, the usage template, the texts of the commands
    and what it prints on standard output. *)
Definition init_keeps (g g' : Globals Handler Action Ext) : Prop :=
  exitStatus g' = exitStatus g /\ atexitFuncs g' = atexitFuncs g /\
  Stderr g' = Stderr g /\ ext g' = ext g /\
  same_commands (commands g) (commands g').

End Derived.

(** ** The process relay, [executeGoCommand] *)

Module Relay.

(** What the calls into [os/exec] answer: [None] for success, the text
    of the error otherwise; and the bytes the child writes to its two
    output streams before it exits. *)
Record Exec : Type := mkExec {
  StdoutPipe_err : option string;
  StderrPipe_err : option string;
  Start_err : option string;
  child_stdout : string;
  child_stderr : string
}.

(** The operations of the calling goroutine, in program order. *)
Inductive Op : Type :=
| DoStdoutPipe
| DoStderrPipe
| DoStart
| DoPrintln (e : string)
| DoGoCopy (dst : Stream)
| DoWait.

(** [if err != nil { fmt.Println(err) }] *)
Definition report (err : option string) : list Op :=
  match err with
  | Some e => [DoPrintln e]
  | None => []
  end.

(** The operations [executeGoCommand] performs. *)
Definition executeGoCommand (x : Exec) : list Op :=
  [DoStdoutPipe] ++ report (StdoutPipe_err x)
  ++ [DoStderrPipe] ++ report (StderrPipe_err x)
  ++ [DoStart] ++ report (Start_err x)
  ++ [DoGoCopy OsStdout; DoGoCopy OsStderr; DoWait].

(** The child process: not started, running with the bytes it has yet
    to write to each stream, or gone. *)
Inductive Child : Type :=
| NotStarted
| Running (out err : string)
| Gone.

(** The relay session and its surroundings: the calling goroutine with
    the operations it has yet to perform, the child, the bytes held by
    the two pipes, whether [Wait] has closed the pipes, the two copying
    goroutines, and the bytes that reached the caller's streams. *)
Record Sys : Type := mkSys {
  todo : list Op;
  child : Child;
  pipe_out : string;
  pipe_err : string;
  closed : bool;
  copier_out : bool;
  copier_err : bool;
  caller_out : string;
  caller_err : string
}.

Definition init (x : Exec) : Sys :=
  mkSys (executeGoCommand x) NotStarted "" "" false false false "" "".

(** [executeGoCommand] has returned. *)
Definition returned (s : Sys) : bool :=
  match todo s with [] => true | _ => false end.

(** Who takes the next step. *)
Inductive Actor : Type :=
| Caller        (* the goroutine running executeGoCommand *)
| ChildOut      (* the child writes a byte to its standard output *)
| ChildErr      (* the child writes a byte to its standard error *)
| ChildExit     (* the child, having written everything, exits *)
| CopyOut       (* io.Copy(os.Stdout, stdout) moves a byte *)
| CopyErr.      (* io.Copy(os.Stderr, stderr) moves a byte *)

(** One step of the chosen actor, [None] when it cannot move. *)
Definition step (x : Exec) (a : Actor) (s : Sys) : option Sys :=
  match a with
  | Caller =>
      match todo s with
      | [] => None
      | DoStdoutPipe :: ops | DoStderrPipe :: ops =>
          Some (mkSys ops (child s) (pipe_out s) (pipe_err s) (closed s)
                      (copier_out s) (copier_err s)
                      (caller_out s) (caller_err s))
      | DoStart :: ops =>
          Some (mkSys ops
                      (match Start_err x with
                       | None => Running (child_stdout x) (child_stderr x)
                       | Some _ => child s
                       end)
                      (pipe_out s) (pipe_err s) (closed s)
                      (copier_out s) (copier_err s)
                      (caller_out s) (caller_err s))
      | DoPrintln e :: ops =>
          Some (mkSys ops (child s) (pipe_out s) (pipe_err s) (closed s)
                      (copier_out s) (copier_err s)
                      (caller_out s ++ e ++ nl) (caller_err s))
      | DoGoCopy OsStdout :: ops =>
          Some (mkSys ops (child s) (pipe_out s) (pipe_err s) (closed s)
                      true (copier_err s) (caller_out s) (caller_err s))
      | DoGoCopy OsStderr :: ops =>
          Some (mkSys ops (child s) (pipe_out s) (pipe_err s) (closed s)
                      (copier_out s) true (caller_out s) (caller_err s))
      | DoWait :: ops =>
          (* Wait blocks while the child runs; once it has seen the
             child exit it closes the pipes and returns *)
          match child s with
          | Running _ _ => None
          | _ =>
              Some (mkSys ops (child s) (pipe_out s) (pipe_err s) true
                          (copier_out s) (copier_err s)
                          (caller_out s) (caller_err s))
          end
      end
  | ChildOut =>
      match child s with
      | Running (String c out) err =>
          Some (mkSys (todo s) (Running out err)
                      (pipe_out s ++ String c "") (pipe_err s) (closed s)
                      (copier_out s) (copier_err s)
                      (caller_out s) (caller_err s))
      | _ => None
      end
  | ChildErr =>
      match child s with
      | Running out (String c err) =>
          Some (mkSys (todo s) (Running out err)
                      (pipe_out s) (pipe_err s ++ String c "") (closed s)
                      (copier_out s) (copier_err s)
                      (caller_out s) (caller_err s))
      | _ => None
      end
  | ChildExit =>
      match child s with
      | Running "" "" =>
          Some (mkSys (todo s) Gone (pipe_out s) (pipe_err s) (closed s)
                      (copier_out s) (copier_err s)
                      (caller_out s) (caller_err s))
      | _ => None
      end
  | CopyOut =>
      match copier_out s, closed s, pipe_out s with
      | true, false, String c rest =>
          Some (mkSys (todo s) (child s) rest (pipe_err s) (closed s)
                      (copier_out s) (copier_err s)
                      (caller_out s ++ String c "") (caller_err s))
      | _, _, _ => None
      end
  | CopyErr =>
      match copier_err s, closed s, pipe_err s with
      | true, false, String c rest =>
          Some (mkSys (todo s) (child s) (pipe_out s) rest (closed s)
                      (copier_out s) (copier_err s)
                      (caller_out s) (caller_err s ++ String c ""))
      | _, _, _ => None
      end
  end.

(** A schedule: the actors in the order in which they move. *)
Fixpoint exec (x : Exec) (sched : list Actor) (s : Sys) : option Sys :=
  match sched with
  | [] => Some s
  | a :: sched' =>
      match step x a s with
      | Some s' => exec x sched' s'
      | None => None
      end
  end.

(** The states an invocation can reach. *)
Definition reachable (x : Exec) (s : Sys) : Prop :=
  exists sched, exec x sched (init x) = Some s.

(** Both streams drained: every byte the child wrote is on the
    corresponding stream of the caller. *)
Definition drained (x : Exec) (s : Sys) : Prop :=
  caller_out s = child_stdout x /\ caller_err s = child_stderr x.

(** Two invocations: a child that writes one byte to each stream and
    exits at once, and a [go] executable that cannot be started. *)
Definition quick_child : Exec := mkExec None None None "x" "y".
Definition no_go : Exec :=
  mkExec None None (Some "exec: go: executable file not found") "" "".

(** The bytes the child has yet to write to its two streams. *)
Definition pending (x : Exec) (s : Sys) : string * string :=
  match child s with
  | NotStarted => (child_stdout x, child_stderr x)
  | Running out err => (out, err)
  | Gone => ("", "")
  end.

(** No call into [os/exec] fails. *)
Definition succeeds (x : Exec) : Prop :=
  StdoutPipe_err x = None /\ StderrPipe_err x = None /\ Start_err x = None.

(** The number of [Start] operations in a list of operations. *)
Fixpoint starts (ops : list Op) : nat :=
  match ops with
  | [] => 0
  | DoStart :: ops' => S (starts ops')
  | _ :: ops' => starts ops'
  end.

(** Nothing is lost or made up on the way: what reached the caller, what
    the pipe holds and what the child has yet to write make up, in this
    order, what the child writes; no error is left to print, and the
    child is started at most once. *)
Definition conserved (x : Exec) (s : Sys) : Prop :=
  caller_out s ++ pipe_out s ++ fst (pending x s) = child_stdout x /\
  caller_err s ++ pipe_err s ++ snd (pending x s) = child_stderr x /\
  (forall e, ~ In (DoPrintln e) (todo s)) /\
  (starts (todo s) <= match child s with NotStarted => 1 | _ => 0 end)%nat.

(** The calling goroutine is somewhere in its program; it has returned
    only after [Wait], which closed the pipes, and then the child does
    not run. *)
Definition positioned (x : Exec) (s : Sys) : Prop :=
  (exists done, executeGoCommand x = (done ++ todo s)%list) /\
  (todo s = [] ->
   closed s = true /\ forall out err, child s <> Running out err) /\
  (Start_err x = None -> child s = NotStarted -> In DoStart (todo s)).

(** The schedule in which, [n] times, the actor [a] moves and then the
    actor [b]. *)
Fixpoint alternate (a b : Actor) (n : nat) : list Actor :=
  match n with
  | O => []
  | S n' => a :: b :: alternate a b n'
  end.

(** The schedule under which the child writes and the goroutines copy
    byte after byte, before the child exits and [Wait] returns. *)
Definition patient (x : Exec) : list Actor :=
  ([Caller; Caller; Caller; Caller; Caller]
   ++ alternate ChildOut CopyOut (String.length (child_stdout x))
   ++ alternate ChildErr CopyErr (String.length (child_stderr x))
   ++ [ChildExit; Caller])%list.

End Relay.

(** The text of the unknown-subcommand error. *)
Definition unknown_text {H A E} (rt : Runtime H A E) (arg0 : string)
  : string :=
  "gpm: unknown subcommand " ++ fmt_q rt arg0 ++ nl
  ++ "Run 'gpm help' for usage." ++ nl.

(** The globals when the unknown-subcommand path reaches [exit]. *)
Definition unknown_globals {H A E} (rt : Runtime H A E) (arg0 : string)
           (g : Globals H A E) : Globals H A E :=
  set_exitStatus (Z.max (exitStatus g) 2)
                 (set_Stderr (Stderr g ++ unknown_text rt arg0) g).

(** The maximum of the values of a non-empty sequence [n :: ns]. *)
Definition max_passed (n : Z) (ns : list Z) : Z := fold_left Z.max ns n.

(** The exit status after the calls [setExitStatus(n)] for the [n] of
    [ns], in a process that has just started. *)
Definition status_after (ns : list Z) : Z :=
  exitStatus (globals (snd (setExitStatus_all ns
                              (start unit (@nil (Command unit)) tt)))).

(** ** A sample instance *)

(** Handlers and cleanup actions are numbered.  The outside state is a
    log: cleanup action [a] appends [a] to it.  Handler [h] registers the
    cleanup actions [h] and [h + 1] and raises the exit status to [h]. *)
Module Sample.

Definition G : Type := Globals nat nat (list nat).

Definition handler (h : nat) (c : Command nat) (args : list string) (g : G)
  : Outcome unit * G :=
  (Returned tt,
   set_atexitFuncs (atexitFuncs g ++ [h; S h])
     (set_exitStatus (Z.max (exitStatus g) (Z.of_nat h)) g)).

Definition action (a : nat) (g : G) : Outcome unit * G :=
  (Returned tt,
   mkGlobals (config g) (appPath g) (commands g) (exitStatus g)
             (usageTemplate g) (atexitFuncs g) (Stdout g) (Stderr g)
             (ext g ++ [a])%list).

Definition render (text : string) (d : TData nat) : TmplResult :=
  match d with
  | DCommands cs => Rendered (String.concat " " (map (@Name nat) cs) ++ nl)
  | DCommand c => Rendered (Long c ++ nl)
  end.

Definition quote : string := String "034" "".

Definition rt : Runtime nat nat (list nat) :=
  mkRuntime handler action render
            (fun s => quote ++ s ++ quote)
            (fun s => "`" ++ s ++ "`")
            (fun s => s)
            (fun _ => "/opt/gpm/")
            false
            (fun s => s)
            (fun _ _ => (mkConfig "gpm" "0.1" "" "" "en", None))
            (fun _ => inl "one line|||Several lines.").

Definition registry : list (Command nat) :=
  [ mkCommand (Some 3%nat) "build [flags] <pkg>" "" "" [];
    mkCommand (Some 5%nat) "install <pkg>" "" "" [];
    mkCommand None "importpath" "" "" [] ].

(** A registry whose only entry is a documentation topic named [help]. *)
Definition help_topic : list (Command nat) :=
  [ mkCommand None "help" "" "" [] ].

(** A case mapping that raises the ASCII letters and [U+00E9]. *)
Definition title (r : Z) : Z :=
  if (0x61 <=? r) && (r <=? 0x7A) then r - 0x20
  else if r =? 0xE9 then 0xC9
  else r.

End Sample.

(** ** Variants of the sample instance *)

Module Variants.

(** A handler that ends the process as [Command.Usage] does. *)
Definition stopping_handler (h : nat) (c : Command nat)
           (args : list string) (g : Sample.G) : Outcome unit * Sample.G :=
  (Exited 2, set_Stderr (Stderr g ++ "usage: " ++ UsageLine c ++ nl) g).

(** Cleanup action [0] ends the process with status 9; the others log
    their number. *)
Definition failing_action (a : nat) (g : Sample.G)
  : Outcome unit * Sample.G :=
  match a with
  | O => (Exited 9, g)
  | S _ => Sample.action a g
  end.

(** Cleanup action [a] logs its number, registers the cleanup action
    [a + 10] and raises the exit status to [a]. *)
Definition busy_action (a : nat) (g : Sample.G) : Outcome unit * Sample.G :=
  (Returned tt,
   mkGlobals (config g) (appPath g) (commands g)
             (Z.max (exitStatus g) (Z.of_nat a))
             (usageTemplate g) (atexitFuncs g ++ [a + 10])%nat%list
             (Stdout g) (Stderr g) (ext g ++ [a])%list).

(** The sample runtime with some of its parts replaced. *)
Definition make
           (handler : nat -> Command nat -> list string -> Sample.G ->
                      Outcome unit * Sample.G)
           (action : nat -> Sample.G -> Outcome unit * Sample.G)
           (render : string -> TData nat -> TmplResult)
           (look : string -> string) (win : bool)
           (read : string -> string + string)
  : Runtime nat nat (list nat) :=
  mkRuntime handler action render
            (fun s => Sample.quote ++ s ++ Sample.quote)
            (fun s => "`" ++ s ++ "`")
            (fun s => s) look win (fun s => s)
            (fun _ _ => (mkConfig "gpm" "0.1" "" "" "en", None))
            read.

Definition read_all (p : string) : string + string :=
  inl "one line|||Several lines.".

(** No [gpm] on the search path. *)
Definition no_path : Runtime nat nat (list nat) :=
  make Sample.handler Sample.action Sample.render (fun _ => "") false
       read_all.

(** Handlers that end the process. *)
Definition stopping : Runtime nat nat (list nat) :=
  make stopping_handler Sample.action Sample.render
       (fun _ => "/opt/gpm/") false read_all.

(** A cleanup action that ends the process. *)
Definition failing : Runtime nat nat (list nat) :=
  make Sample.handler failing_action Sample.render
       (fun _ => "/opt/gpm/") false read_all.

(** Cleanup actions that register further actions and raise the status. *)
Definition busy : Runtime nat nat (list nat) :=
  make Sample.handler busy_action Sample.render
       (fun _ => "/opt/gpm/") false read_all.

(** A template that fails after some output. *)
Definition broken : Runtime nat nat (list nat) :=
  make Sample.handler Sample.action (fun _ _ => ExecError "gpm is")
       (fun _ => "/opt/gpm/") false read_all.

(** Windows, with the executable found under [C:\tools\gpm]. *)
Definition on_windows : Runtime nat nat (list nat) :=
  make Sample.handler Sample.action Sample.render
       (fun _ => "C:\tools\gpm") true read_all.

(** The usage file of [install] is missing. *)
Definition missing_file : Runtime nat nat (list nat) :=
  make Sample.handler Sample.action Sample.render
       (fun _ => "/opt/gpm/") false
       (fun p => if String.eqb p "/opt/gpm/i18n/en/usage_install.txt"
                 then inr "no such file"
                 else read_all p).

End Variants.

(** ** What initialization computes *)

Section Loading.

Variables Handler Action Ext : Type.
Variable rt : Runtime Handler Action Ext.

(** The application path [getAppPath] settles on when the executable is
    found. *)
Definition resolved_path : string :=
  if windows rt
  then ReplaceByte (Dir rt (LookPath rt "gpm")) "\" "/" ++ "/"
  else LookPath rt "gpm".

(** The usage file of a command. *)
Definition usage_file (lang path : string) (cmd : Command Handler)
  : string :=
  path ++ "i18n/" ++ lang ++ "/usage_" ++ Name cmd ++ ".txt".

(** The command with the texts of its usage file, when the file can be
    read and has at least two parts. *)
Definition with_usage (lang path : string) (cmd : Command Handler)
  : option (Command Handler) :=
  match ReadFile rt (usage_file lang path cmd) with
  | inr _ => None
  | inl usageBytes =>
      let usages := Split usageBytes "|||" in
      if Z.of_nat (List.length usages) <? 2 then None
      else Some (set_texts cmd (nth 0 usages "") (nth 1 usages ""))
  end.

(** What [loadUsage] prints about a command whose usage file cannot be
    read or has fewer than two parts. *)
Definition usage_complaint (lang path : string) (cmd : Command Handler)
  : string :=
  match ReadFile rt (usage_file lang path cmd) with
  | inr err =>
      "loadUsage(): Fail to load usage(" ++ Name cmd ++ "): " ++ err
      ++ "." ++ nl
  | inl _ =>
      "loadUsage(): nacceptable usage file: " ++ Name cmd ++ "." ++ nl
  end.

End Loading.

(* ================================================================== *)
(** * Properties *)
(* ================================================================== *)

Unset Implicit Arguments.

(** ** Strings *)

Section StringFacts.

Lemma prefix_empty (s : string) : String.prefix "" s = true.
Proof. destruct s; reflexivity. Qed.

Lemma prefix_byte (c d : ascii) (s : string) :
  String.prefix (String c "") (String d s) = Ascii.eqb c d.
Proof.
  simpl. destruct (ascii_dec c d) as [->|Hn].
  - rewrite prefix_empty, Ascii.eqb_refl. reflexivity.
  - symmetry. apply Ascii.eqb_neq. exact Hn.
Qed.

Lemma substring_prefix (p r : string) :
  String.substring 0 (String.length p) (p ++ r) = p.
Proof.
  induction p as [|c p IH]; simpl.
  - destruct r; reflexivity.
  - rewrite IH. reflexivity.
Qed.

Lemma substring_zero (s : string) : String.substring 0 0 s = "".
Proof. destruct s; reflexivity. Qed.

Lemma substring_all (s : string) :
  String.substring 0 (String.length s) s = s.
Proof. induction s as [|c s IH]; simpl; [|rewrite IH]; reflexivity. Qed.

Lemma substring_drop (p r : string) :
  String.substring (String.length p) (String.length r) (p ++ r) = r.
Proof.
  induction p as [|c p IH]; simpl.
  - apply substring_all.
  - exact IH.
Qed.

Lemma length_append (p r : string) :
  String.length (p ++ r) = (String.length p + String.length r)%nat.
Proof. induction p as [|c p IH]; simpl; [|rewrite IH]; reflexivity. Qed.

Lemma slice_from_append (p r : string) :
  slice_from (p ++ r) (len p) = r.
Proof.
  unfold slice_from, len. rewrite Nat2Z.id, length_append.
  replace (String.length p + String.length r - String.length p)%nat
    with (String.length r) by lia.
  apply substring_drop.
Qed.

Lemma slice_to_append (p r : string) : slice_to (p ++ r) (len p) = p.
Proof. unfold slice_to, len. rewrite Nat2Z.id. apply substring_prefix. Qed.

Lemma free_of_cons (c d : ascii) (s : string) :
  free_of c (String d s) <-> d <> c /\ free_of c s.
Proof. unfold free_of. simpl. tauto. Qed.

(** [Index] finds the first occurrence of a byte. *)
Lemma index_from_found (c : ascii) (p r : string) (i : Z) :
  free_of c p ->
  index_from i (p ++ String c r) (String c "") = i + len p.
Proof.
  revert i. induction p as [|d p IH]; intros i Hp.
  - cbn [append index_from]. rewrite prefix_byte, Ascii.eqb_refl.
    unfold len. simpl. lia.
  - apply free_of_cons in Hp. destruct Hp as [Hd Hp].
    cbn [append index_from]. rewrite prefix_byte.
    assert (Ascii.eqb c d = false) as ->
        by (apply Ascii.eqb_neq; congruence).
    rewrite IH by assumption. unfold len. simpl String.length. lia.
Qed.

Lemma index_from_absent (c : ascii) (s : string) (i : Z) :
  free_of c s -> index_from i s (String c "") = -1.
Proof.
  revert i. induction s as [|d s IH]; intros i Hs.
  - reflexivity.
  - apply free_of_cons in Hs. destruct Hs as [Hd Hs].
    cbn [index_from]. rewrite prefix_byte.
    assert (Ascii.eqb c d = false) as ->
        by (apply Ascii.eqb_neq; congruence).
    apply IH. assumption.
Qed.

Lemma len_nonneg (s : string) : 0 <= len s.
Proof. unfold len. lia. Qed.

(** Every string splits at its first occurrence of a byte, if any. *)
Lemma split_at_first (c : ascii) (s : string) :
  free_of c s \/
  exists p r, s = p ++ String c r /\ free_of c p.
Proof.
  induction s as [|d s IH].
  - left. unfold free_of. simpl. tauto.
  - destruct (ascii_dec d c) as [->|Hd].
    + right. exists "", s. split; [reflexivity|].
      unfold free_of. simpl. tauto.
    + destruct IH as [Hs | (p & r & -> & Hp)].
      * left. apply free_of_cons. tauto.
      * right. exists (String d p), r. split; [reflexivity|].
        apply free_of_cons. tauto.
Qed.

End StringFacts.

(** ** Bit arithmetic and the UTF-8 codec *)

Lemma lor_add (a v k : Z) :
  0 <= k -> 0 <= v < 2 ^ k -> a mod 2 ^ k = 0 -> Z.lor a v = a + v.
Proof.
  intros Hk Hv Ha.
  assert (Hl : Z.land a v = 0).
  { apply Z.bits_inj'. intros n Hn. rewrite Z.land_spec, Z.bits_0.
    destruct (Z.lt_ge_cases n k) as [Hlt|Hge].
    - assert (Hax : a = (a / 2 ^ k) * 2 ^ k).
      { pose proof (Z.div_mod a (2 ^ k)) as D. lia. }
      rewrite Hax, Z.mul_pow2_bits_low by lia. reflexivity.
    - rewrite <- (Z.mod_small v (2 ^ k)) by lia.
      rewrite Z.mod_pow2_bits_high by lia. apply andb_false_r. }
  rewrite (Z.add_nocarry_lxor a v Hl). symmetry. apply Z.lxor_lor. exact Hl.
Qed.

Lemma land_mask (a k : Z) : 0 <= k -> Z.land a (2 ^ k - 1) = a mod 2 ^ k.
Proof.
  intros Hk. rewrite <- Z.land_ones by assumption.
  rewrite Z.ones_equiv. reflexivity.
Qed.

Lemma byte_at_0 (v : Z) (s : string) :
  0 <= v < 256 -> byte_at (String (byte_of v) s) 0 = v.
Proof.
  intros Hv. unfold byte_at, byte_of. simpl.
  rewrite N_ascii_embedding by lia. lia.
Qed.


Lemma lor_const (c m v : Z) (k : Z) :
  0 <= k -> m = 2 ^ k -> c mod m = 0 -> 0 <= v < m -> Z.lor c v = c + v.
Proof. intros Hk -> Hc Hv. apply (lor_add c v k); assumption. Qed.

Lemma lor_shifted (a v : Z) (k : Z) :
  0 <= k -> 0 <= v < 2 ^ k -> Z.lor (Z.shiftl a k) v = a * 2 ^ k + v.
Proof.
  intros Hk Hv. rewrite Z.shiftl_mul_pow2 by assumption.
  apply (lor_add _ v k); try assumption. apply Z.mod_mul. lia.
Qed.

Lemma land_maskx (a : Z) : Z.land a utf8.maskx = a mod 64.
Proof. apply (land_mask a 6). lia. Qed.
Lemma land_mask2 (a : Z) : Z.land a utf8.mask2 = a mod 32.
Proof. apply (land_mask a 5). lia. Qed.
Lemma land_mask3 (a : Z) : Z.land a utf8.mask3 = a mod 16.
Proof. apply (land_mask a 4). lia. Qed.
Lemma land_mask4 (a : Z) : Z.land a utf8.mask4 = a mod 8.
Proof. apply (land_mask a 3). lia. Qed.

Lemma lor_tx (v : Z) : 0 <= v < 64 -> Z.lor utf8.tx v = 128 + v.
Proof. apply (lor_const 128 64 v 6); [lia | reflexivity | reflexivity]. Qed.
Lemma lor_t2 (v : Z) : 0 <= v < 32 -> Z.lor utf8.t2 v = 192 + v.
Proof. apply (lor_const 192 32 v 5); [lia | reflexivity | reflexivity]. Qed.
Lemma lor_t3 (v : Z) : 0 <= v < 16 -> Z.lor utf8.t3 v = 224 + v.
Proof. apply (lor_const 224 16 v 4); [lia | reflexivity | reflexivity]. Qed.
Lemma lor_t4 (v : Z) : 0 <= v < 8 -> Z.lor utf8.t4 v = 240 + v.
Proof. apply (lor_const 240 8 v 3); [lia | reflexivity | reflexivity]. Qed.

Lemma shiftr_6 (r : Z) : Z.shiftr r 6 = r / 64.
Proof. apply (Z.shiftr_div_pow2 r 6). lia. Qed.
Lemma shiftr_12 (r : Z) : Z.shiftr r 12 = r / 4096.
Proof. apply (Z.shiftr_div_pow2 r 12). lia. Qed.
Lemma shiftr_18 (r : Z) : Z.shiftr r 18 = r / 262144.
Proof. apply (Z.shiftr_div_pow2 r 18). lia. Qed.

Ltac dlia := Z.div_mod_to_equations; lia.
Ltac bytes_eq :=
  repeat match goal with
         | |- String _ _ = String _ _ => f_equal
         | |- byte_of _ = byte_of _ => apply f_equal
         end; try reflexivity; dlia.

Ltac enc_norm :=
  unfold utf8.byte;
  rewrite ?shiftr_6, ?shiftr_12, ?shiftr_18, ?land_maskx;
  rewrite ?lor_tx, ?lor_t2, ?lor_t3, ?lor_t4 by dlia.

Lemma runeString_1 r : 0 <= r <= 0x7F -> utf8.runeString r = String (byte_of r) "".
Proof.
  intros Hr. unfold utf8.runeString, utf8.rune1Max.
  rewrite (proj2 (Z.leb_le 0 r)), (proj2 (Z.leb_le r 127)) by lia.
  cbn [andb]. enc_norm. bytes_eq.
Qed.

Lemma runeString_2 r : 0x80 <= r <= 0x7FF -> utf8.runeString r = String (byte_of (192 + r / 64)) (String (byte_of (128 + r mod 64)) "").
Proof.
  intros Hr. unfold utf8.runeString, utf8.rune1Max, utf8.rune2Max.
  rewrite (proj2 (Z.leb_le 0 r)) by lia.
  rewrite (proj2 (Z.leb_gt r 127)) by lia.
  rewrite (proj2 (Z.leb_le r 2047)) by lia.
  cbn [andb]. enc_norm. bytes_eq.
Qed.

Lemma encode3_bytes r : 0 <= r <= 0xFFFF -> utf8.encode3 r = String (byte_of (224 + r / 4096)) (String (byte_of (128 + (r / 64) mod 64)) (String (byte_of (128 + r mod 64)) "")).
Proof.
  intros Hr. unfold utf8.encode3. enc_norm. bytes_eq.
Qed.

Lemma runeString_3 r : 0x800 <= r <= 0xFFFF -> ~ (0xD800 <= r <= 0xDFFF) -> utf8.runeString r = utf8.encode3 r.
Proof.
  intros Hr Hs. unfold utf8.runeString, utf8.rune1Max, utf8.rune2Max, utf8.rune3Max, utf8.MaxRune, utf8.surrogateMin, utf8.surrogateMax.
  rewrite (proj2 (Z.leb_le 0 r)) by lia.
  rewrite (proj2 (Z.leb_gt r 127)) by lia.
  rewrite (proj2 (Z.leb_gt r 2047)) by lia.
  rewrite (proj2 (Z.ltb_ge r 0)) by lia.
  rewrite (proj2 (Z.ltb_ge 1114111 r)) by lia.
  rewrite (proj2 (Z.leb_le r 65535)) by lia.
  cbn [andb orb].
  destruct (Z.leb_spec 55296 r); destruct (Z.leb_spec r 57343); try lia; reflexivity.
Qed.

Lemma runeString_4 r : 0x10000 <= r <= 0x10FFFF -> utf8.runeString r =
  String (byte_of (240 + r / 262144)) (String (byte_of (128 + (r / 4096) mod 64)) (String (byte_of (128 + (r / 64) mod 64)) (String (byte_of (128 + r mod 64)) ""))).
Proof.
  intros Hr. unfold utf8.runeString, utf8.rune1Max, utf8.rune2Max, utf8.rune3Max, utf8.MaxRune, utf8.surrogateMin, utf8.surrogateMax.
  rewrite (proj2 (Z.leb_le 0 r)) by lia.
  rewrite (proj2 (Z.leb_gt r 127)) by lia.
  rewrite (proj2 (Z.leb_gt r 2047)) by lia.
  rewrite (proj2 (Z.ltb_ge r 0)) by lia.
  rewrite (proj2 (Z.ltb_ge 1114111 r)) by lia.
  rewrite (proj2 (Z.leb_gt r 65535)) by lia.
  rewrite (proj2 (Z.leb_gt r 57343)) by lia.
  rewrite (proj2 (Z.leb_le 55296 r)) by lia.
  cbn [andb orb]. enc_norm. bytes_eq.
Qed.

Lemma len_cons (c : ascii) (s : string) : len (String c s) = 1 + len s.
Proof. unfold len. simpl String.length. lia. Qed.

Lemma byte_at_S (c : ascii) (s : string) (i : nat) :
  byte_at (String c s) (S i) = byte_at s i.
Proof. reflexivity. Qed.

Lemma first_cases (b : Z) :
  0 <= b < 256 ->
  (b < 0x80 /\ utf8.first b = utf8.as_) \/
  ((0x80 <= b < 0xC2 \/ 0xF5 <= b) /\ utf8.first b = utf8.xx) \/
  (0xC2 <= b < 0xE0 /\ utf8.first b = 0x02) \/
  (b = 0xE0 /\ utf8.first b = 0x13) \/
  ((0xE1 <= b < 0xED \/ 0xEE <= b < 0xF0) /\ utf8.first b = 0x03) \/
  (b = 0xED /\ utf8.first b = 0x23) \/
  (b = 0xF0 /\ utf8.first b = 0x34) \/
  (0xF1 <= b < 0xF4 /\ utf8.first b = 0x04) \/
  (b = 0xF4 /\ utf8.first b = 0x44).
Proof.
  intros Hb. unfold utf8.first.
  repeat match goal with
         | |- context [?a <? ?c] => destruct (Z.ltb_spec a c)
         | |- context [?a =? ?c] => destruct (Z.eqb_spec a c)
         end; lia.
Qed.


Ltac cmp_step :=
  match goal with
  | |- context [?a <? ?b] =>
      first [ rewrite (proj2 (Z.ltb_lt a b)) by dlia
            | rewrite (proj2 (Z.ltb_ge a b)) by dlia ]
  | |- context [?a <=? ?b] =>
      first [ rewrite (proj2 (Z.leb_le a b)) by dlia
            | rewrite (proj2 (Z.leb_gt a b)) by dlia ]
  end.

Ltac cmp_all := repeat (cmp_step; cbn [orb andb]; cbv iota).

Ltac decode_const x :=
  let sz := eval vm_compute in (Z.land x 7) in
  let ar := eval vm_compute in (utf8.acceptRanges (Z.shiftr x 4)) in
  let ge := eval vm_compute in (x >=? utf8.as_) in
  try change (Z.land x 7) with sz;
  try change (x mod 8) with sz;
  try change (utf8.acceptRanges (Z.shiftr x 4)) with ar;
  change (x >=? utf8.as_) with ge;
  cbv beta iota; cbn [fst snd].

Lemma shiftl_6 (a : Z) : Z.shiftl a 6 = a * 64.
Proof. apply (Z.shiftl_mul_pow2 a 6). lia. Qed.
Lemma shiftl_12 (a : Z) : Z.shiftl a 12 = a * 4096.
Proof. apply (Z.shiftl_mul_pow2 a 12). lia. Qed.
Lemma shiftl_18 (a : Z) : Z.shiftl a 18 = a * 262144.
Proof. apply (Z.shiftl_mul_pow2 a 18). lia. Qed.

Lemma lor_64 (a v : Z) : 0 <= v < 64 -> Z.lor (a * 64) v = a * 64 + v.
Proof.
  intros Hv. apply (lor_add _ v 6); [lia | exact Hv | apply (Z.mod_mul a 64); lia].
Qed.
Lemma lor_4096 (a v : Z) : 0 <= v < 4096 -> Z.lor (a * 4096) v = a * 4096 + v.
Proof.
  intros Hv. apply (lor_add _ v 12); [lia | exact Hv | apply (Z.mod_mul a 4096); lia].
Qed.
Lemma lor_262144 (a v : Z) : 0 <= v < 262144 -> Z.lor (a * 262144) v = a * 262144 + v.
Proof.
  intros Hv. apply (lor_add _ v 18); [lia | exact Hv | apply (Z.mod_mul a 262144); lia].
Qed.

Ltac dec_norm :=
  rewrite ?shiftl_6, ?shiftl_12, ?shiftl_18,
          ?land_maskx, ?land_mask2, ?land_mask3, ?land_mask4.

Ltac decode_start :=
  unfold utf8.DecodeRuneInString; cbv zeta;
  rewrite ?len_cons, ?byte_at_S, ?byte_at_0 by lia;
  dec_norm; unfold utf8.locb, utf8.hicb.

Lemma decode_2 (b0 b1 : Z) (rest : string) :
  0xC2 <= b0 <= 0xDF -> 0x80 <= b1 <= 0xBF ->
  utf8.DecodeRuneInString (String (byte_of b0) (String (byte_of b1) rest))
  = ((b0 mod 32) * 64 + b1 mod 64, 2).
Proof.
  intros H0 H1. pose proof (len_nonneg rest). decode_start.
  destruct (first_cases b0) as [[? E]|[[? E]|[[? E]|[[? E]|[[? E]|[[? E]|[[? E]|[[? E]|[? E]]]]]]]]]; try lia.
  rewrite E. decode_const 2. cmp_all.
  rewrite lor_64 by dlia. reflexivity.
Qed.

Ltac lor_sum :=
  repeat match goal with
  | |- context [Z.lor (?a * 262144) ?v] => rewrite (lor_262144 a v) by dlia
  | |- context [Z.lor (?a * 4096) ?v] => rewrite (lor_4096 a v) by dlia
  | |- context [Z.lor (?a * 64) ?v] => rewrite (lor_64 a v) by dlia
  | |- context [Z.lor (?a + ?b) ?v] =>
      first [ rewrite (lor_const (a + b) 4096 v 12)
                by first [reflexivity | dlia]
            | rewrite (lor_const (a + b) 64 v 6)
                by first [reflexivity | dlia] ]
  end.

Ltac by_first b0 :=
  destruct (first_cases b0)
    as [[? E]|[[? E]|[[? E]|[[? E]|[[? E]|[[? E]|[[? E]|[[? E]|[? E]]]]]]]]];
  try lia; rewrite E;
  match type of E with _ = ?x => decode_const x end.

Lemma decode_1 (b0 : Z) (rest : string) :
  0 <= b0 <= 0x7F ->
  utf8.DecodeRuneInString (String (byte_of b0) rest) = (b0, 1).
Proof.
  intros H0. pose proof (len_nonneg rest). decode_start.
  by_first b0. cmp_all.
  change (Z.shiftr (utf8.int32 (Z.shiftl utf8.as_ 31)) 31) with 0.
  rewrite Z.ldiff_0_r, Z.land_0_r, Z.lor_0_r. reflexivity.
Qed.

Lemma decode_3 (b0 b1 b2 : Z) (rest : string) :
  0xE0 <= b0 <= 0xEF -> 0x80 <= b1 <= 0xBF -> 0x80 <= b2 <= 0xBF ->
  (b0 = 0xE0 -> 0xA0 <= b1) -> (b0 = 0xED -> b1 <= 0x9F) ->
  utf8.DecodeRuneInString
    (String (byte_of b0) (String (byte_of b1) (String (byte_of b2) rest)))
  = ((b0 mod 16) * 4096 + (b1 mod 64) * 64 + b2 mod 64, 3).
Proof.
  intros H0 H1 H2 Ha Hb. pose proof (len_nonneg rest). decode_start.
  by_first b0; cmp_all; lor_sum; reflexivity.
Qed.

Lemma decode_4 (b0 b1 b2 b3 : Z) (rest : string) :
  0xF0 <= b0 <= 0xF4 -> 0x80 <= b1 <= 0xBF -> 0x80 <= b2 <= 0xBF ->
  0x80 <= b3 <= 0xBF ->
  (b0 = 0xF0 -> 0x90 <= b1) -> (b0 = 0xF4 -> b1 <= 0x8F) ->
  utf8.DecodeRuneInString
    (String (byte_of b0) (String (byte_of b1) (String (byte_of b2)
       (String (byte_of b3) rest))))
  = ((b0 mod 8) * 262144 + (b1 mod 64) * 4096 + (b2 mod 64) * 64
     + b3 mod 64, 4).
Proof.
  intros H0 H1 H2 H3 Ha Hb. pose proof (len_nonneg rest). decode_start.
  by_first b0; cmp_all; lor_sum; reflexivity.
Qed.

(** Decoding undoes encoding, whatever follows the encoded rune. *)
Lemma decode_runeString (r : Z) (rest : string) :
  utf8.scalar r ->
  utf8.DecodeRuneInString (utf8.runeString r ++ rest)
  = (r, len (utf8.runeString r)).
Proof.
  unfold utf8.scalar, utf8.MaxRune, utf8.surrogateMin, utf8.surrogateMax.
  intros [Hr Hs].
  destruct (Z.le_gt_cases r 0x7F) as [H1|H1].
  { rewrite runeString_1 by lia. cbn [append]. rewrite decode_1 by lia.
    reflexivity. }
  destruct (Z.le_gt_cases r 0x7FF) as [H2|H2].
  { rewrite runeString_2 by lia. cbn [append]. rewrite decode_2 by dlia.
    f_equal. dlia. }
  destruct (Z.le_gt_cases r 0xFFFF) as [H3|H3].
  { rewrite runeString_3, encode3_bytes by lia. cbn [append].
    rewrite decode_3 by dlia. f_equal. dlia. }
  rewrite runeString_4 by lia. cbn [append].
  rewrite decode_4 by dlia. f_equal. dlia.
Qed.

(** ** [capitalize] *)

Lemma byte_range (c : ascii) : 0 <= Z.of_N (N_of_ascii c) < 256.
Proof. pose proof (N_ascii_bounded c). lia. Qed.

Lemma decode_width (s : string) :
  s <> "" -> 1 <= snd (utf8.DecodeRuneInString s) <= len s.
Proof.
  destruct s as [|c t]; [congruence|]. intros _.
  pose proof (len_nonneg t). pose proof (byte_range c) as Hc.
  unfold utf8.DecodeRuneInString. cbv zeta. rewrite len_cons.
  change (byte_at (String c t) 0) with (Z.of_N (N_of_ascii c)).
  set (b0 := Z.of_N (N_of_ascii c)) in *.
  rewrite (proj2 (Z.ltb_ge (1 + len t) 1)) by lia.
  destruct (first_cases b0 Hc)
    as [[? E]|[[? E]|[[? E]|[[? E]|[[? E]|[[? E]|[[? E]|[[? E]|[? E]]]]]]]]];
  rewrite E;
  match type of E with _ = ?x => decode_const x end;
  try (cbn [snd]; lia);
  repeat match goal with
         | |- context [?a <? ?b] => destruct (Z.ltb_spec a b)
         | |- context [?a <=? ?b] => destruct (Z.leb_spec a b)
         end; cbn [orb andb fst snd]; lia.
Qed.

Lemma substring_split (s : string) (n : nat) :
  (n <= String.length s)%nat ->
  String.substring 0 n s ++ String.substring n (String.length s - n) s = s.
Proof.
  revert n. induction s as [|c s IH]; intros [|n] Hn; simpl in *;
    try reflexivity; try lia.
  - rewrite substring_all. reflexivity.
  - rewrite IH by lia. reflexivity.
Qed.

Lemma substring_length (s : string) (n : nat) :
  (n <= String.length s)%nat ->
  String.length (String.substring 0 n s) = n.
Proof.
  revert n. induction s as [|c s IH]; intros [|n] Hn; simpl in *;
    try reflexivity; try lia.
  rewrite IH by lia. reflexivity.
Qed.

Lemma slice_split (s : string) (n : Z) :
  0 <= n <= len s ->
  s = slice_to s n ++ slice_from s n /\ len (slice_to s n) = n.
Proof.
  unfold len, slice_to, slice_from. intros Hn. split.
  - symmetry. apply substring_split. lia.
  - rewrite substring_length by lia. lia.
Qed.

Lemma runeString_nonempty (r : Z) : utf8.runeString r <> "".
Proof.
  unfold utf8.runeString, utf8.encode3.
  repeat match goal with |- context [if ?b then _ else _] => destruct b end;
    discriminate.
Qed.

Section CapitalizeFacts.
Variable ToTitle : Z -> Z.

Lemma capitalize_empty : capitalize ToTitle "" = "".
Proof. reflexivity. Qed.

Lemma capitalize_nonempty (s : string) :
  s <> "" ->
  capitalize ToTitle s
  = utf8.runeString (ToTitle (fst (utf8.DecodeRuneInString s)))
    ++ slice_from s (snd (utf8.DecodeRuneInString s)).
Proof.
  intros Hs. unfold capitalize.
  rewrite (proj2 (String.eqb_neq s "") Hs).
  destruct (utf8.DecodeRuneInString s) as [r n]. reflexivity.
Qed.

Lemma capitalize_encoded (r : Z) (rest : string) :
  utf8.scalar r ->
  capitalize ToTitle (utf8.runeString r ++ rest)
  = utf8.runeString (ToTitle r) ++ rest.
Proof.
  intros Hr. rewrite capitalize_nonempty.
  - rewrite decode_runeString by assumption. cbn [fst snd].
    rewrite slice_from_append. reflexivity.
  - pose proof (runeString_nonempty r).
    destruct (utf8.runeString r); [congruence | discriminate].
Qed.

End CapitalizeFacts.

(** C8.  [capitalize] maps the first decoded character of a string through
    the case mapping and leaves the bytes after it unchanged:
    [capitalize("")] is [""]; [capitalize("go")] is ["Go"]; for a string
    that starts with the UTF-8 encoding of any Unicode scalar value, of
    one to four bytes, the result is the encoding of the mapped character
    followed by the same remaining bytes; and for every non-empty string,
    well encoded or not, the result is the encoding of the mapped first
    decoded rune followed by the input without its first [n] bytes, [n]
    being the width the decoder reports. *)
Theorem capitalize_first_rune (ToTitle : Z -> Z) :
  capitalize ToTitle "" = "" /\
  (ToTitle 0x67 = 0x47 -> capitalize ToTitle "go" = "Go") /\
  (forall (r : Z) (rest : string),
      utf8.scalar r ->
      capitalize ToTitle (utf8.runeString r ++ rest)
      = utf8.runeString (ToTitle r) ++ rest) /\
  (forall s : string,
      s <> "" ->
      exists (r n : Z) (head : string),
        utf8.DecodeRuneInString s = (r, n) /\
        1 <= n <= len s /\ len head = n /\
        s = head ++ slice_from s n /\
        capitalize ToTitle s = utf8.runeString (ToTitle r) ++ slice_from s n).
Proof.
  split; [reflexivity|]. split; [|split].
  - intros Hg. change "go" with (utf8.runeString 0x67 ++ "o").
    rewrite capitalize_encoded, Hg; [reflexivity|].
    unfold utf8.scalar. cbv; intuition discriminate.
  - apply capitalize_encoded.
  - intros s Hs. pose proof (decode_width s Hs) as Hw.
    pose proof (capitalize_nonempty ToTitle s Hs) as Hc.
    destruct (utf8.DecodeRuneInString s) as [r n]. cbn [fst snd] in *.
    destruct (slice_split s n ltac:(lia)) as [Hsplit Hlen].
    exists r, n, (slice_to s n). repeat split; try assumption; lia.
Qed.

Lemma capitalize_first_rune_witness :
  capitalize Sample.title "go" = "Go" /\
  capitalize Sample.title (String "195" (String "169" "tude"))
  = String "195" (String "137" "tude").
Proof.
  destruct (capitalize_first_rune Sample.title) as (_ & Hgo & Henc & _).
  split; [exact (Hgo eq_refl)|].
  assert (Hs : utf8.scalar 0xE9).
  { unfold utf8.scalar, utf8.MaxRune, utf8.surrogateMin, utf8.surrogateMax.
    lia. }
  exact (Henc 0xE9 "tude" Hs).
Defined.

(** ** The derived name of a command *)

Section NameFacts.

Variable Handler : Type.
Implicit Types c : Command Handler.

Lemma Name_no_space c :
  free_of " " (UsageLine c) -> Name c = UsageLine c.
Proof.
  intros H. unfold Name, Index.
  rewrite index_from_absent by assumption. reflexivity.
Qed.

Lemma Name_before_space c (p r : string) :
  free_of " " p -> UsageLine c = p ++ String " " r -> Name c = p.
Proof.
  intros Hp Hu. unfold Name, Index. rewrite Hu.
  rewrite index_from_found by assumption.
  pose proof (len_nonneg p) as Hl.
  destruct (0 + len p >=? 0) eqn:E; [|lia].
  replace (0 + len p) with (len p) by lia.
  change (String " " r) with (String " " "" ++ r).
  apply slice_to_append.
Qed.

Lemma Name_free_of_space c : free_of " " (Name c).
Proof.
  destruct (split_at_first " " (UsageLine c)) as [H | (p & r & Hu & Hp)].
  - rewrite Name_no_space; assumption.
  - rewrite (Name_before_space c p r Hp Hu). assumption.
Qed.

Lemma Name_idempotent c : Name (set_UsageLine c (Name c)) = Name c.
Proof. apply Name_no_space. simpl. apply Name_free_of_space. Qed.

End NameFacts.

(** C6.  [Name] is a function of the usage line alone; it is the part of
    the usage line before its first space, and the whole usage line when
    there is no space; the name of ["build [flags] <pkg>"] is ["build"] and
    that of ["foo"] is ["foo"]; deriving the name of a derived name gives
    the same string. *)
Theorem Name_derivation (Handler : Type) :
  (forall c c' : Command Handler,
      UsageLine c = UsageLine c' -> Name c = Name c') /\
  (forall (c : Command Handler) (p r : string),
      free_of " " p -> UsageLine c = p ++ " " ++ r -> Name c = p) /\
  (forall c : Command Handler,
      free_of " " (UsageLine c) -> Name c = UsageLine c) /\
  (forall (run : option Handler) (short long : string) flags,
      Name (mkCommand run "build [flags] <pkg>" short long flags) = "build" /\
      Name (mkCommand run "foo" short long flags) = "foo") /\
  (forall c : Command Handler, Name (set_UsageLine c (Name c)) = Name c).
Proof.
  repeat split.
  - intros c c' H. unfold Name. rewrite H. reflexivity.
  - intros c p r Hp Hu. exact (Name_before_space _ c p r Hp Hu).
  - apply Name_no_space.
  - apply Name_idempotent.
Qed.

Lemma Name_derivation_witness :
  free_of " " "install" /\
  Name (mkCommand (@None unit) "install [-v] <pkg>" "" "" []) = "install".
Proof.
  assert (H : free_of " " "install").
  { unfold free_of. simpl. intuition discriminate. }
  split; [exact H|].
  exact (proj1 (proj2 (Name_derivation unit))
               (mkCommand None "install [-v] <pkg>" "" "" [])
               "install" "[-v] <pkg>" H eq_refl).
Defined.

(** C10.  A usage line that begins with a space gives the empty name, the
    name being the part of the usage line strictly before its first space;
    no non-empty argument equals that name, so neither the loop of [main]
    nor the loop of [help] stops at such a command for a non-empty
    argument. *)
Theorem Name_leading_space (Handler : Type) (c : Command Handler)
        (r : string) :
  UsageLine c = String " " r ->
  Name c = "" /\
  (exists rest, UsageLine c = Name c ++ " " ++ rest) /\
  (forall arg : string, arg <> "" -> String.eqb (Name c) arg = false) /\
  (forall (Action Ext : Type) (rt : Runtime Handler Action Ext)
          (cs : list (Command Handler)) (arg : string)
          (rest : list string),
      arg <> "" ->
      main_range rt (c :: cs) arg rest = main_range rt cs arg rest /\
      help_range rt (c :: cs) arg = help_range rt cs arg).
Proof.
  intros Hu.
  assert (Hn : Name c = "").
  { apply (Name_before_space _ c "" r); [|exact Hu].
    unfold free_of. simpl. tauto. }
  assert (He : forall arg : string,
             arg <> "" -> String.eqb (Name c) arg = false).
  { intros arg Ha. rewrite Hn. apply String.eqb_neq. congruence. }
  split; [exact Hn|]. split; [|split].
  - exists r. rewrite Hn, Hu. reflexivity.
  - exact He.
  - intros Action Ext rt cs arg rest Ha.
    cbn [main_range help_range]. rewrite (He arg Ha). split; reflexivity.
Qed.

Lemma Name_leading_space_witness :
  Name (mkCommand (@None unit) " build" "" "" []) = "" /\
  String.eqb (Name (mkCommand (@None unit) " build" "" "" [])) "build"
  = false.
Proof.
  destruct (Name_leading_space unit
              (mkCommand None " build" "" "" []) "build" eq_refl)
    as (Hn & _ & Hne & _).
  split; [exact Hn|]. apply Hne. discriminate.
Defined.

(** ** The process *)

Section ProcessFacts.
Variables Handler Action Ext : Type.
Variable rt : Runtime Handler Action Ext.
Local Abbreviation Globals := (Globals Handler Action Ext).
Local Abbreviation World := (World Handler Action Ext).
Local Abbreviation M := (M Handler Action Ext).
Local Abbreviation Command := (Command Handler).
Implicit Types (w : World) (g : Globals).

Lemma world_eta w : mkWorld (globals w) (calls w) = w.
Proof. destruct w; reflexivity. Qed.

(** *** The cleanup chain *)

Lemma exit_range_cons (f : Action) (fs : list Action) w :
  exit_range rt (f :: fs) w
  = match run_action rt f (globals w) with
    | (Returned _, g') =>
        exit_range rt fs (mkWorld g' (calls w ++ [CallCleanup f]))
    | (o, g') => (abort o, mkWorld g' (calls w ++ [CallCleanup f]))
    end.
Proof.
  cbn [exit_range]. unfold bind, record, call. cbn [globals calls].
  destruct (run_action rt f (globals w)) as [[[]| | |] g']; reflexivity.
Qed.

Lemma exit_unfold w :
  exit rt w
  = match exit_range rt (atexitFuncs (globals w))
                     (mkWorld (globals w) (calls w ++ [CallExit])) with
    | (Returned _, w') => (Exited (exitStatus (globals w')), w')
    | (o, w') => (abort o, w')
    end.
Proof.
  unfold exit, bind, record, gets, os_Exit. cbn [globals calls].
  destruct (exit_range rt _ _) as [[[]| | |] w']; reflexivity.
Qed.

Lemma exit_range_calls (fs : list Action) w :
  exists k : nat,
    (k <= List.length fs)%nat /\
    calls (snd (exit_range rt fs w))
    = (calls w ++ map CallCleanup (firstn k fs))%list /\
    (fst (exit_range rt fs w) = Returned tt -> k = List.length fs).
Proof.
  revert w. induction fs as [|f fs IH]; intros w.
  - exists 0%nat. cbn. rewrite app_nil_r. auto.
  - rewrite exit_range_cons.
    destruct (run_action rt f (globals w)) as [o g'].
    destruct o as [[]| | |].
    + destruct (IH (mkWorld g' (calls w ++ [CallCleanup f])))
        as (k & Hk & Hc & Hr).
      exists (S k). cbn [firstn map List.length]. split; [lia|]. split.
      * rewrite Hc. cbn [calls]. rewrite <- app_assoc. reflexivity.
      * intros H. rewrite (Hr H). reflexivity.
    + exists 1%nat. cbn. split; [lia|]. split; [|discriminate].
      destruct fs; reflexivity.
    + exists 1%nat. cbn. split; [lia|]. split; [|discriminate].
      destruct fs; reflexivity.
    + exists 1%nat. cbn. split; [lia|]. split; [|discriminate].
      destruct fs; reflexivity.
Qed.

Lemma exit_range_all_return (fs : list Action) w :
  all_return rt fs ->
  exit_range rt fs w
  = (Returned tt,
     mkWorld (after_actions rt fs (globals w))
             (calls w ++ map CallCleanup fs)).
Proof.
  revert w. induction fs as [|f fs IH]; intros w Hall.
  - cbn. rewrite app_nil_r, world_eta. reflexivity.
  - rewrite exit_range_cons.
    pose proof (Hall f (globals w) (or_introl eq_refl)) as Hf.
    unfold after_actions. cbn [fold_left].
    destruct (run_action rt f (globals w)) as [o g']. cbn [fst snd] in *.
    subst o. rewrite IH.
    + cbn [globals calls map]. rewrite <- app_assoc. reflexivity.
    + intros f' g Hin. apply Hall. right. exact Hin.
Qed.

Lemma exit_all_return w :
  all_return rt (atexitFuncs (globals w)) ->
  exit rt w
  = (Exited (exitStatus (after_actions rt (atexitFuncs (globals w))
                                       (globals w))),
     mkWorld (after_actions rt (atexitFuncs (globals w)) (globals w))
             (calls w ++ CallExit :: map CallCleanup
                                         (atexitFuncs (globals w)))).
Proof.
  intros Hall. rewrite exit_unfold, exit_range_all_return by assumption.
  cbn [globals calls]. rewrite <- app_assoc. reflexivity.
Qed.

(** [exit] never returns to its caller. *)
Lemma exit_never_returns w : fst (exit rt w) <> Returned tt.
Proof.
  rewrite exit_unfold.
  destruct (exit_range rt _ _) as [[[]| | |] w']; cbn; discriminate.
Qed.

Lemma exit_calls w :
  exists k : nat,
    calls (snd (exit rt w))
    = (calls w ++ CallExit
         :: map CallCleanup (firstn k (atexitFuncs (globals w))))%list.
Proof.
  rewrite exit_unfold.
  destruct (exit_range_calls (atexitFuncs (globals w))
              (mkWorld (globals w) (calls w ++ [CallExit])))
    as (k & _ & Hc & _).
  exists k. cbn [calls] in Hc. rewrite <- app_assoc in Hc. cbn [app] in Hc.
  destruct (exit_range rt _ _) as [[[]| | |] w']; cbn in *; exact Hc.
Qed.

Lemma atexit_all_spec (fs : list Action) w :
  atexit_all fs w
  = (Returned tt,
     mkWorld (set_atexitFuncs (atexitFuncs (globals w) ++ fs) (globals w))
             (calls w)).
Proof.
  revert w. induction fs as [|f fs IH]; intros w.
  - cbn. rewrite app_nil_r. destruct w as [[] ?]; reflexivity.
  - cbn [atexit_all]. unfold bind, atexit at 1, modify. rewrite IH.
    cbn. rewrite <- app_assoc. reflexivity.
Qed.

(** *** Initialization *)

Lemma same_commands_refl (cs : list Command) : same_commands cs cs.
Proof. induction cs; constructor; auto. Qed.

Lemma same_commands_trans (cs1 cs2 cs3 : list Command) :
  same_commands cs1 cs2 -> same_commands cs2 cs3 -> same_commands cs1 cs3.
Proof.
  intros H12. revert cs3. induction H12 as [|c1 c2 l1 l2 H _ IH];
    intros cs3 H23; inversion H23; subst; constructor.
  - intuition congruence.
  - apply IH. assumption.
Qed.

Lemma same_commands_texts (done todo : list Command) (c : Command)
      (short long : string) :
  same_commands (done ++ c :: todo) (done ++ set_texts c short long :: todo).
Proof.
  induction done as [|d done IH]; cbn [app].
  - constructor; [cbn; auto | apply same_commands_refl].
  - constructor; [auto | exact IH].
Qed.

Lemma same_commands_Name (cs cs' : list Command) :
  same_commands cs cs' -> map (@Name _) cs' = map (@Name _) cs.
Proof.
  induction 1 as [|c c' l l' (_ & Hu & _) _ IH]; [reflexivity|].
  cbn [map]. rewrite IH. unfold Name. rewrite Hu. reflexivity.
Qed.


Lemma init_keeps_refl g : init_keeps g g.
Proof. unfold init_keeps. auto using same_commands_refl. Qed.

Lemma getAppPath_spec w :
  exists (b : bool) (g' : Globals),
    getAppPath rt w = (Returned b, mkWorld g' (calls w)) /\
    init_keeps (globals w) g' /\ commands g' = commands (globals w) /\
    (b = true -> Stdout g' = Stdout (globals w)).
Proof.
  unfold getAppPath, bind, modify, gets, ret, write, init_keeps.
  cbn [globals calls appPath set_appPath].
  destruct (len (LookPath rt "gpm") =? 0).
  - eexists. eexists. split; [reflexivity|]. cbn.
    repeat split; auto using same_commands_refl. discriminate.
  - destruct (windows rt); eexists; eexists; (split; [reflexivity|]); cbn;
      repeat split; auto using same_commands_refl.
Qed.

Lemma loadUsage_range_spec (lang path : string) (cs0 : list Command)
      (done todo : list Command) w :
  same_commands cs0 (commands (globals w)) ->
  same_commands cs0 (done ++ todo) ->
  exists (b : bool) (g' : Globals),
    loadUsage_range rt lang path done todo w
    = (Returned b, mkWorld g' (calls w)) /\
    exitStatus g' = exitStatus (globals w) /\
    atexitFuncs g' = atexitFuncs (globals w) /\
    Stderr g' = Stderr (globals w) /\ ext g' = ext (globals w) /\
    usageTemplate g' = usageTemplate (globals w) /\
    same_commands cs0 (commands g') /\
    (b = true -> Stdout g' = Stdout (globals w)).
Proof.
  revert done w. induction todo as [|cmd todo IH]; intros done w Hc Hd.
  - exists true, (globals w). cbn. rewrite world_eta. auto 10.
  - cbn [loadUsage_range].
    destruct (ReadFile rt _) as [usageBytes|err].
    + destruct (Z.of_nat (List.length (Split usageBytes "|||")) <? 2).
      * eexists. eexists. unfold bind, write, modify, ret.
        split; [reflexivity|]. cbn. repeat split; auto. discriminate.
      * unfold bind at 1. unfold modify at 1.
        set (cmd' := set_texts cmd _ _).
        set (w1 := mkWorld _ _).
        destruct (IH (done ++ [cmd'])%list w1) as (b & g' & He & H).
        { subst w1. cbn. eapply same_commands_trans; [exact Hd|].
          apply same_commands_texts. }
        { rewrite <- app_assoc. cbn [app].
          eapply same_commands_trans; [exact Hd|].
          apply same_commands_texts. }
        exists b, g'. split; [exact He|]. subst w1. cbn in H. exact H.
    + eexists. eexists. unfold bind, write, modify, ret.
      split; [reflexivity|]. cbn. repeat split; auto. discriminate.
Qed.

Lemma loadUsage_spec (lang path : string) w :
  exists (b : bool) (g' : Globals),
    loadUsage rt lang path w = (Returned b, mkWorld g' (calls w)) /\
    init_keeps (globals w) g' /\
    (b = true -> Stdout g' = Stdout (globals w)).
Proof.
  unfold loadUsage. destruct (ReadFile rt _) as [usageBytes|err].
  - unfold bind at 1. unfold modify at 1. unfold bind at 1.
    unfold gets at 1. cbn [globals calls commands set_usageTemplate].
    set (w1 := mkWorld _ _).
    destruct (loadUsage_range_spec lang path (commands (globals w)) []
                (commands (globals w)) w1)
      as (b & g' & He & H1 & H2 & H3 & H4 & _ & H6 & H7);
      try (subst w1; cbn; apply same_commands_refl).
    exists b, g'. split; [exact He|]. subst w1. cbn in *.
    unfold init_keeps. auto 10.
  - eexists. eexists. unfold bind, write, modify, ret.
    split; [reflexivity|]. cbn. unfold init_keeps.
    repeat split; auto using same_commands_refl. discriminate.
Qed.

Lemma initialize_spec w :
  exists (b : bool) (g' : Globals),
    initialize rt w = (Returned b, mkWorld g' (calls w)) /\
    init_keeps (globals w) g' /\
    (b = true -> Stdout g' = Stdout (globals w)).
Proof.
  unfold initialize. unfold bind at 1.
  destruct (getAppPath_spec w) as (b & g1 & -> & K1 & C1 & S1).
  destruct b; cbn [negb].
  2:{ exists false, g1. split; [reflexivity|]. split; [exact K1|].
      discriminate. }
  unfold bind at 1. unfold gets at 1. unfold bind at 1. unfold gets at 1.
  cbn [globals calls].
  destruct (DecodeFile rt _ _) as [cfg' [e|]].
  - eexists. eexists. unfold bind, write, modify, ret.
    split; [reflexivity|]. cbn. split; [|discriminate].
    unfold init_keeps in *. cbn. exact K1.
  - unfold bind at 1. unfold modify at 1. unfold bind at 1.
    cbn [globals calls].
    set (w2 := mkWorld _ _).
    destruct (loadUsage_spec (Lang cfg') (appPath g1) w2)
      as (b & g2 & -> & K2 & S2).
    assert (K : init_keeps (globals w) g2).
    { unfold init_keeps in *. subst w2. cbn in K2.
      destruct K1 as (? & ? & ? & ? & ?), K2 as (? & ? & ? & ? & ?).
      repeat split; congruence. }
    destruct b; cbn [negb]; eexists; eexists;
      (split; [reflexivity|]); (split; [exact K|]); try discriminate.
    intros _. rewrite (S2 eq_refl). subst w2. cbn. apply S1. reflexivity.
Qed.

(** *** The exit status *)

Lemma setExitStatus_spec (n : Z) w :
  setExitStatus n w
  = (Returned tt,
     mkWorld (set_exitStatus (Z.max (exitStatus (globals w)) n) (globals w))
             (calls w)).
Proof.
  unfold setExitStatus, modify. f_equal. f_equal.
  destruct (Z.ltb_spec (exitStatus (globals w)) n).
  - rewrite Z.max_r by lia. reflexivity.
  - rewrite Z.max_l by lia. destruct (globals w); reflexivity.
Qed.

Lemma setExitStatus_all_spec (ns : list Z) w :
  setExitStatus_all ns w
  = (Returned tt,
     mkWorld (set_exitStatus (fold_left Z.max ns (exitStatus (globals w)))
                             (globals w))
             (calls w)).
Proof.
  revert w. induction ns as [|n ns IH]; intros w.
  - cbn. destruct w as [[] ?]; reflexivity.
  - cbn [setExitStatus_all fold_left]. unfold bind.
    rewrite setExitStatus_spec, IH. reflexivity.
Qed.

Lemma fold_max_ge (ns : list Z) (a : Z) : a <= fold_left Z.max ns a.
Proof.
  revert a. induction ns as [|n ns IH]; intros a; cbn; [lia|].
  specialize (IH (Z.max a n)). lia.
Qed.

Lemma fold_max_ge_in (ns : list Z) (a n : Z) :
  In n ns -> n <= fold_left Z.max ns a.
Proof.
  revert a. induction ns as [|m ns IH]; intros a; cbn; [tauto|].
  intros [->|Hin]; [|apply IH; exact Hin].
  pose proof (fold_max_ge ns (Z.max a n)). lia.
Qed.

Lemma fold_max_in (ns : list Z) (a : Z) :
  fold_left Z.max ns a = a \/ In (fold_left Z.max ns a) ns.
Proof.
  revert a. induction ns as [|n ns IH]; intros a; cbn; [auto|].
  destruct (IH (Z.max a n)) as [H|H]; [|auto].
  rewrite H. destruct (Z.max_spec a n) as [[_ ->]|[_ ->]]; auto.
Qed.

(** *** Templates, usage and help *)

(** What [tmpl] leaves in the world, by the answer of the engine. *)
Lemma tmpl_spec (s : Stream) (text : string) (d : TData Handler) w :
  tmpl rt s text d w
  = match template rt text d with
    | ParseError => (Panicked, w)
    | ExecError partial =>
        (Panicked, snd (write s partial w))
    | Rendered out => write s out w
    end.
Proof.
  unfold tmpl. destruct (template rt text d); try reflexivity.
  unfold bind, panic. destruct s; reflexivity.
Qed.

Lemma write_calls (s : Stream) (text : string) w :
  calls (snd (write s text w)) = calls w.
Proof. destruct s; reflexivity. Qed.

Lemma write_returns (s : Stream) (text : string) w :
  fst (write s text w) = Returned tt.
Proof. destruct s; reflexivity. Qed.

Lemma tmpl_calls (s : Stream) (text : string) (d : TData Handler) w :
  calls (snd (tmpl rt s text d w)) = calls w /\
  (fst (tmpl rt s text d w) = Returned tt \/
   fst (tmpl rt s text d w) = Panicked).
Proof.
  rewrite tmpl_spec. destruct (template rt text d); cbn [fst snd].
  - auto.
  - rewrite write_calls. auto.
  - rewrite write_calls, write_returns. auto.
Qed.

Lemma printUsage_calls (s : Stream) w :
  calls (snd (printUsage rt s w)) = calls w /\
  (fst (printUsage rt s w) = Returned tt \/
   fst (printUsage rt s w) = Panicked).
Proof. unfold printUsage, bind, gets. apply tmpl_calls. Qed.

Lemma usage_calls w :
  calls (snd (usage rt w)) = calls w /\
  (fst (usage rt w) = Exited 2 \/ fst (usage rt w) = Panicked).
Proof.
  unfold usage, bind, os_Exit.
  destruct (printUsage_calls OsStderr w) as [Hc Ho].
  destruct (printUsage rt OsStderr w) as [[[]| | |] w']; cbn in *;
    destruct Ho; try discriminate; auto.
Qed.

Lemma help_range_calls (cs : list Command) (arg : string) w :
  calls (snd (help_range rt cs arg w)) = calls w /\
  (fst (help_range rt cs arg w) = Returned true \/
   fst (help_range rt cs arg w) = Panicked \/
   help_range rt cs arg w = (Returned false, w)).
Proof.
  induction cs as [|c cs IH]; cbn [help_range].
  - cbn. auto.
  - destruct (String.eqb (Name c) arg); [|exact IH].
    unfold bind, ret.
    destruct (tmpl_calls OsStdout helpTemplate (DCommand c) w) as [Hc Ho].
    destruct (tmpl rt OsStdout helpTemplate (DCommand c) w)
      as [[[]| | |] w']; cbn in *; destruct Ho; try discriminate; auto.
Qed.

Lemma help_calls (args : list string) w :
  calls (snd (help rt args w)) = calls w /\
  (fst (help rt args w) = Returned tt \/ fst (help rt args w) = Exited 2 \/
   fst (help rt args w) = Panicked).
Proof.
  unfold help. destruct (Z.of_nat (List.length args) =? 0).
  - destruct (printUsage_calls OsStdout w) as [Hc Ho]. tauto.
  - destruct (negb (Z.of_nat (List.length args) =? 1)).
    + cbn. auto.
    + unfold bind, ret, gets. cbn [globals].
      destruct (help_range_calls (commands (globals w)) (hd "" args) w)
        as [Hc [Ho|[Ho|Ho]]].
      * destruct (help_range rt _ _ w) as [o w']. cbn in *. subst o. auto.
      * destruct (help_range rt _ _ w) as [o w']. cbn in *. subst o. auto.
      * rewrite Ho. cbn. auto.
Qed.

(** *** [main] *)

Section AfterInit.

Variables (w : World) (g1 : Globals).
Hypothesis Hinit : initialize rt w = (Returned true, mkWorld g1 (calls w)).

Lemma main_no_arguments :
  main rt [] w = (usage rt ;; ret tt) (mkWorld g1 (calls w)).
Proof. unfold main. unfold bind at 1. rewrite Hinit. reflexivity. Qed.

Lemma main_help (rest : list string) :
  main rt ("help" :: rest) w
  = (help rt rest ;; ret tt) (mkWorld g1 (calls w)).
Proof.
  unfold main. unfold bind at 1. rewrite Hinit.
  cbn [negb List.length hd tl].
  replace (Z.of_nat (S (List.length rest)) <? 1) with false
    by (symmetry; apply Z.ltb_ge; lia).
  reflexivity.
Qed.

Lemma main_command (arg0 : string) (rest : list string) :
  arg0 <> "help" ->
  main rt (arg0 :: rest) w
  = (returned <- main_range rt (commands g1) arg0 rest ;;
     if returned then ret tt else
     write OsStderr ("gpm: unknown subcommand " ++ fmt_q rt arg0 ++ nl
                     ++ "Run 'gpm help' for usage." ++ nl) ;;
     setExitStatus 2 ;;
     exit rt) (mkWorld g1 (calls w)).
Proof.
  intros Hne. unfold main. unfold bind at 1. rewrite Hinit.
  cbn [negb List.length hd tl].
  replace (Z.of_nat (S (List.length rest)) <? 1) with false
    by (symmetry; apply Z.ltb_ge; lia).
  rewrite (proj2 (String.eqb_neq arg0 "help") Hne).
  reflexivity.
Qed.

End AfterInit.

Lemma main_range_skip (cs : list Command) (arg0 : string)
      (rest : list string) w :
  (forall c, In c cs -> Name c = arg0 -> Run c = None) ->
  main_range rt cs arg0 rest w = (Returned false, w).
Proof.
  induction cs as [|c cs IH]; intros H; cbn [main_range]; [reflexivity|].
  destruct (String.eqb_spec (Name c) arg0) as [E|E].
  - rewrite (H c (or_introl eq_refl) E). apply IH.
    intros c' Hin. apply H. right. exact Hin.
  - apply IH. intros c' Hin. apply H. right. exact Hin.
Qed.

Lemma main_range_found (pre post : list Command) (c : Command)
      (h : Handler) (arg0 : string) (rest : list string) w :
  (forall c', In c' pre -> Name c' = arg0 -> Run c' = None) ->
  Name c = arg0 -> Run c = Some h ->
  main_range rt (pre ++ c :: post) arg0 rest w
  = (record (CallRun c rest) ;; call (run_handler rt h c rest) ;;
     exit rt ;; ret true) w.
Proof.
  intros Hpre Hn Hr. induction pre as [|p pre IH]; cbn [app main_range].
  - rewrite Hn, String.eqb_refl, Hr. reflexivity.
  - destruct (String.eqb_spec (Name p) arg0) as [E|E].
    + rewrite (Hpre p (or_introl eq_refl) E). apply IH.
      intros c' Hin. apply Hpre. right. exact Hin.
    + apply IH. intros c' Hin. apply Hpre. right. exact Hin.
Qed.

Lemma help_range_found (pre post : list Command) (c : Command)
      (arg : string) w :
  (forall c', In c' pre -> Name c' <> arg) ->
  Name c = arg ->
  help_range rt (pre ++ c :: post) arg w
  = (tmpl rt OsStdout helpTemplate (DCommand c) ;; ret true) w.
Proof.
  intros Hpre Hn. induction pre as [|p pre IH]; cbn [app help_range].
  - rewrite Hn, String.eqb_refl. reflexivity.
  - rewrite (proj2 (String.eqb_neq (Name p) arg))
      by (apply Hpre; left; reflexivity).
    apply IH. intros c' Hin. apply Hpre. right. exact Hin.
Qed.

End ProcessFacts.

(** ** The lifecycle coordinator *)

Section Paths.
Variables Handler Action Ext : Type.
Variable rt : Runtime Handler Action Ext.
Local Abbreviation Globals := (Globals Handler Action Ext).
Local Abbreviation World := (World Handler Action Ext).
Local Abbreviation Command := (Command Handler).
Variables (w : World) (g1 : Globals).
Hypothesis Hinit : initialize rt w = (Returned true, mkWorld g1 (calls w)).

Lemma main_unknown (arg0 : string) (rest : list string) :
  arg0 <> "help" ->
  (forall c, In c (commands g1) -> Name c = arg0 -> Run c = None) ->
  main rt (arg0 :: rest) w
  = exit rt (mkWorld (unknown_globals rt arg0 g1) (calls w)).
Proof.
  intros Hne Hnone. rewrite (main_command _ _ _ rt w g1 Hinit) by assumption.
  unfold bind at 1. rewrite main_range_skip by assumption.
  unfold bind at 1. unfold write at 1. unfold modify at 1.
  unfold bind at 1. rewrite setExitStatus_spec. reflexivity.
Qed.

Lemma main_handler (pre post : list Command) (c : Command) (h : Handler)
      (arg0 : string) (rest : list string) (g2 : Globals) :
  arg0 <> "help" ->
  commands g1 = (pre ++ c :: post)%list ->
  (forall c', In c' pre -> Name c' = arg0 -> Run c' = None) ->
  Name c = arg0 -> Run c = Some h ->
  run_handler rt h c rest g1 = (Returned tt, g2) ->
  main rt (arg0 :: rest) w
  = exit rt (mkWorld g2 (calls w ++ [CallRun c rest])).
Proof.
  intros Hne Hcs Hpre Hn Hr Hh.
  rewrite (main_command _ _ _ rt w g1 Hinit) by assumption.
  unfold bind at 1. rewrite Hcs.
  rewrite (main_range_found _ _ _ rt pre post c h arg0 rest _ Hpre Hn Hr).
  unfold bind at 1. unfold record at 1. unfold bind at 1. unfold call at 1.
  cbn [globals calls]. rewrite Hh. unfold bind at 1.
  pose proof (exit_never_returns _ _ _ rt
                (mkWorld g2 (calls w ++ [CallRun c rest]))) as Hx.
  destruct (exit rt _) as [[[]| | |] w']; cbn in *; congruence.
Qed.

End Paths.

Lemma NoDup_map_eq {A B : Type} (f : A -> B) (l : list A) (x y : A) :
  NoDup (map f l) -> In x l -> In y l -> f x = f y -> x = y.
Proof.
  induction l as [|a l IH]; cbn [map In]; [tauto|].
  intros Hnd Hx Hy Hf. inversion Hnd as [|? ? Hnin Hnd']; subst.
  destruct Hx as [->|Hx], Hy as [->|Hy]; auto.
  - exfalso. apply Hnin. rewrite Hf. apply in_map. exact Hy.
  - exfalso. apply Hnin. rewrite <- Hf. apply in_map. exact Hx.
Qed.

Lemma NoDup_map_first {A B : Type} (f : A -> B) (l : list A) (x : A) :
  NoDup (map f l) -> In x l ->
  exists pre post,
    l = (pre ++ x :: post)%list /\ forall y, In y pre -> f y <> f x.
Proof.
  intros Hnd Hx. destruct (in_split x l Hx) as (pre & post & ->).
  exists pre, post. split; [reflexivity|]. intros y Hy Hf.
  assert (Hyx : y = x).
  { apply (NoDup_map_eq f (pre ++ x :: post) y x Hnd);
      [apply in_or_app; auto | apply in_or_app; cbn; auto | exact Hf]. }
  subst y. rewrite map_app in Hnd. cbn [map] in Hnd.
  apply NoDup_remove_2 in Hnd. apply Hnd. apply in_or_app. left.
  apply in_map. exact Hy.
Qed.

(** C1 (as amended).  After a successful initialization, the control paths
    that reach the shutdown point are the one on which a handler has run
    and returned and the unknown-subcommand one: on each, [exit] is
    entered exactly once, every registered cleanup action is run once, in
    order, provided each of them returns, and the process ends by
    [os.Exit] with the aggregated status.  The paths without an argument
    and with [help] never enter [exit]: they make none of the recorded
    calls, and end by [main] returning, by [os.Exit(2)] or by a panic. *)
Theorem shutdown_paths (Handler Action Ext : Type)
        (rt : Runtime Handler Action Ext) (w : World Handler Action Ext)
        (g1 : Globals Handler Action Ext) :
  initialize rt w = (Returned true, mkWorld g1 (calls w)) ->
  (forall pre c post h arg0 rest g2,
      arg0 <> "help" ->
      commands g1 = (pre ++ c :: post)%list ->
      (forall c', In c' pre -> Name c' = arg0 -> Run c' = None) ->
      Name c = arg0 -> Run c = Some h ->
      run_handler rt h c rest g1 = (Returned tt, g2) ->
      all_return rt (atexitFuncs g2) ->
      main rt (arg0 :: rest) w
      = (Exited (exitStatus (after_actions rt (atexitFuncs g2) g2)),
         mkWorld (after_actions rt (atexitFuncs g2) g2)
                 (calls w ++ CallRun c rest :: CallExit
                    :: map CallCleanup (atexitFuncs g2)))) /\
  (forall arg0 rest,
      arg0 <> "help" ->
      (forall c, In c (commands g1) -> Name c = arg0 -> Run c = None) ->
      all_return rt (atexitFuncs g1) ->
      main rt (arg0 :: rest) w
      = (Exited (exitStatus (after_actions rt (atexitFuncs g1)
                               (unknown_globals rt arg0 g1))),
         mkWorld (after_actions rt (atexitFuncs g1)
                                (unknown_globals rt arg0 g1))
                 (calls w ++ CallExit
                    :: map CallCleanup (atexitFuncs g1)))) /\
  (forall args,
      args = [] \/ (exists rest, args = "help" :: rest) ->
      calls (snd (main rt args w)) = calls w /\
      (fst (main rt args w) = Returned tt \/
       fst (main rt args w) = Exited 2 \/
       fst (main rt args w) = Panicked)).
Proof.
  intros Hinit. split; [|split].
  - intros pre c post h arg0 rest g2 Hne Hcs Hpre Hn Hr Hh Hall.
    rewrite (main_handler _ _ _ rt w g1 Hinit pre post c h arg0 rest g2)
      by assumption.
    rewrite exit_all_return by exact Hall.
    cbn [globals calls]. rewrite <- app_assoc. reflexivity.
  - intros arg0 rest Hne Hnone Hall.
    rewrite (main_unknown _ _ _ rt w g1 Hinit) by assumption.
    rewrite exit_all_return by exact Hall. reflexivity.
  - intros args [->|[rest ->]].
    + rewrite (main_no_arguments _ _ _ rt w g1 Hinit). unfold bind, ret.
      destruct (usage_calls _ _ _ rt (mkWorld g1 (calls w))) as [Hc Ho].
      destruct (usage rt _) as [[[]| | |] w']; cbn in *;
        destruct Ho; try discriminate; auto.
    + rewrite (main_help _ _ _ rt w g1 Hinit). unfold bind, ret.
      destruct (help_calls _ _ _ rt rest (mkWorld g1 (calls w)))
        as [Hc Ho].
      destruct (help rt rest _) as [[[]| | |] w']; cbn in *;
        destruct Ho as [Ho|[Ho|Ho]]; try discriminate; auto.
Qed.

(** Every cleanup action of the sample instance returns. *)
Lemma Sample_all_return (fs : list nat) : all_return Sample.rt fs.
Proof. intros f g _. reflexivity. Qed.

Lemma shutdown_paths_witness :
  fst (run Sample.rt Sample.registry [] ["install"; "x"]) = Exited 5 /\
  calls (snd (run Sample.rt Sample.registry [] ["install"; "x"]))
  = [CallRun (mkCommand (Some 5%nat) "install <pkg>" "one line"
                        "Several lines." []) ["x"];
     CallExit; CallCleanup 5%nat; CallCleanup 6%nat].
Proof.
  pose proof (shutdown_paths nat nat (list nat) Sample.rt
                (start nat Sample.registry [])
                (globals (snd (initialize Sample.rt
                                 (start nat Sample.registry []))))
                eq_refl) as (Hrun & _ & _).
  specialize (Hrun
    [mkCommand (Some 3%nat) "build [flags] <pkg>" "one line"
               "Several lines." []]
    (mkCommand (Some 5%nat) "install <pkg>" "one line" "Several lines." [])
    [mkCommand None "importpath" "one line" "Several lines." []]
    5%nat "install" ["x"] _
    ltac:(discriminate) eq_refl
    ltac:(intros c' [<-|[]]; discriminate) eq_refl eq_refl eq_refl
    (Sample_all_return _)).
  unfold run. rewrite Hrun. split; reflexivity.
Defined.

(** C1, as stated, fails: a run without arguments ends with status 2
    although the aggregated status is 0, without entering [exit]; and a
    cleanup action registered before it is not run. *)
Lemma shutdown_skipped_without_arguments :
  fst (run Sample.rt Sample.registry [] []) = Exited 2 /\
  exitStatus (globals (snd (run Sample.rt Sample.registry [] []))) = 0 /\
  ~ In CallExit (calls (snd (run Sample.rt Sample.registry [] []))) /\
  (let w := mkWorld (set_atexitFuncs [7%nat]
                       (globals (start nat Sample.registry []))) [] in
   fst (main Sample.rt [] w) = Exited 2 /\
   atexitFuncs (globals (snd (main Sample.rt [] w))) = [7%nat] /\
   calls (snd (main Sample.rt [] w)) = [] /\
   ext (globals (snd (main Sample.rt [] w))) = []).
Proof.
  vm_compute. repeat split; try reflexivity. intros [].
Qed.

(** C5.  After the cleanup actions [fs] have been registered in that order
    (none being registered before), the shutdown point calls cleanup
    actions only from [fs], in the order of registration and each
    registration at most once; when every action returns it calls each
    registration exactly once, in order, and then ends the process with
    the exit status. *)
Theorem cleanup_chain_order (Handler Action Ext : Type)
        (rt : Runtime Handler Action Ext) (fs : list Action)
        (w : World Handler Action Ext) :
  atexitFuncs (globals w) = [] ->
  (exists k : nat,
      calls (snd ((atexit_all fs ;; exit rt) w))
      = (calls w ++ CallExit :: map CallCleanup (firstn k fs))%list) /\
  (all_return rt fs ->
   exists g' : Globals Handler Action Ext,
     (atexit_all fs ;; exit rt) w
     = (Exited (exitStatus g'),
        mkWorld g' (calls w ++ CallExit :: map CallCleanup fs))).
Proof.
  intros Hnone. unfold bind. rewrite atexit_all_spec, Hnone. cbn [app].
  split.
  - destruct (exit_calls _ _ _ rt
                (mkWorld (set_atexitFuncs fs (globals w)) (calls w)))
      as [k Hk].
    exists k. exact Hk.
  - intros Hall. eexists. rewrite exit_all_return by exact Hall.
    reflexivity.
Qed.

Lemma cleanup_chain_order_witness :
  all_return Sample.rt [1%nat; 2%nat; 3%nat] /\
  exists g' : Sample.G,
    (atexit_all [1%nat; 2%nat; 3%nat] ;; exit Sample.rt)
      (start nat Sample.registry [])
    = (Exited (exitStatus g'),
       mkWorld g' [CallExit; CallCleanup 1%nat; CallCleanup 2%nat;
                   CallCleanup 3%nat]).
Proof.
  split; [apply Sample_all_return|].
  exact (proj2 (cleanup_chain_order nat nat (list nat) Sample.rt
                  [1%nat; 2%nat; 3%nat] (start nat Sample.registry [])
                  eq_refl)
               (Sample_all_return _)).
Defined.

(** C7.  After a successful initialization, [help] without an argument
    writes the rendering of the usage template on the whole, ordered list
    of commands to standard output, and the process ends with status 0 by
    [main] returning; [help] with two or more arguments writes an error
    saying that too many arguments were given to standard error and ends
    the process with status 2.  Neither calls a handler. *)
Theorem help_argument_count (Handler Action Ext : Type)
        (rt : Runtime Handler Action Ext) (w : World Handler Action Ext)
        (g1 : Globals Handler Action Ext) :
  initialize rt w = (Returned true, mkWorld g1 (calls w)) ->
  Stdout g1 = Stdout (globals w) /\ Stderr g1 = Stderr (globals w) /\
  (forall out : string,
      template rt (usageTemplate g1) (DCommands (commands g1)) = Rendered out ->
      main rt ["help"] w
      = (Returned tt, mkWorld (set_Stdout (Stdout g1 ++ out) g1) (calls w))
      /\ exit_code (fst (main rt ["help"] w)) = Some 0) /\
  (forall (a b : string) (rest : list string),
      main rt ("help" :: a :: b :: rest) w
      = (Exited 2,
         mkWorld (set_Stderr (Stderr g1 ++ "usage: gpm help command" ++ nl
                              ++ nl ++ "Too many arguments given." ++ nl)
                             g1)
                 (calls w))
      /\ exit_code (fst (main rt ("help" :: a :: b :: rest) w)) = Some 2).
Proof.
  intros Hinit.
  destruct (initialize_spec _ _ _ rt w) as (b & g' & He & K & HS).
  rewrite Hinit in He. injection He as <- <-.
  destruct K as (_ & _ & HE & _).
  split; [apply HS; reflexivity|]. split; [exact HE|]. split.
  - intros out Hout.
    assert (Hm : main rt ["help"] w
                 = (Returned tt,
                    mkWorld (set_Stdout (Stdout g1 ++ out) g1) (calls w))).
    { rewrite (main_help _ _ _ rt w g1 Hinit).
      unfold bind at 1. unfold help. cbn [List.length Z.of_nat Z.eqb].
      unfold printUsage, bind, gets. cbn [globals].
      rewrite tmpl_spec, Hout. reflexivity. }
    rewrite Hm. split; reflexivity.
  - intros a b' rest.
    assert (Hm : main rt ("help" :: a :: b' :: rest) w
                 = (Exited 2,
                    mkWorld (set_Stderr
                               (Stderr g1 ++ "usage: gpm help command" ++ nl
                                ++ nl ++ "Too many arguments given." ++ nl)
                               g1)
                            (calls w))).
    { rewrite (main_help _ _ _ rt w g1 Hinit).
      unfold bind at 1. unfold help. cbn [List.length].
      replace (Z.of_nat (S (S (List.length rest))) =? 0) with false
        by (symmetry; apply Z.eqb_neq; lia).
      replace (Z.of_nat (S (S (List.length rest))) =? 1) with false
        by (symmetry; apply Z.eqb_neq; lia).
      reflexivity. }
    rewrite Hm. split; reflexivity.
Qed.

Lemma help_argument_count_witness :
  run Sample.rt Sample.registry [] ["help"]
  = (Returned tt,
     mkWorld (set_Stdout ("build install importpath" ++ nl)
                (globals (snd (initialize Sample.rt
                                 (start nat Sample.registry [])))))
             []).
Proof.
  destruct (help_argument_count nat nat (list nat) Sample.rt
              (start nat Sample.registry [])
              (globals (snd (initialize Sample.rt
                               (start nat Sample.registry []))))
              eq_refl) as (_ & _ & H & _).
  destruct (H ("build install importpath" ++ nl) eq_refl) as [Hm _].
  exact Hm.
Defined.

(** C9 (as amended).  After a successful initialization, for a registered
    command without a handler whose name is not [help], the names of the
    registered commands being distinct: giving its name as the first
    argument calls no handler and takes the unknown-subcommand path (the
    error on standard error, the status raised to at least 2, then the
    shutdown point); and [help] with its name renders the help template
    on that command to standard output, the process ending with status
    0. *)
Theorem documentation_command (Handler Action Ext : Type)
        (rt : Runtime Handler Action Ext) (w : World Handler Action Ext)
        (g1 : Globals Handler Action Ext) (c : Command Handler) :
  initialize rt w = (Returned true, mkWorld g1 (calls w)) ->
  In c (commands g1) -> Run c = None ->
  NoDup (map (@Name Handler) (commands g1)) ->
  (forall rest : list string,
      Name c <> "help" ->
      main rt (Name c :: rest) w
      = exit rt (mkWorld (unknown_globals rt (Name c) g1) (calls w)) /\
      Stderr (unknown_globals rt (Name c) g1)
      = Stderr g1 ++ "gpm: unknown subcommand " ++ fmt_q rt (Name c) ++ nl
        ++ "Run 'gpm help' for usage." ++ nl /\
      2 <= exitStatus (unknown_globals rt (Name c) g1) /\
      (forall c' args,
          In (CallRun c' args) (calls (snd (main rt (Name c :: rest) w))) ->
          In (CallRun c' args) (calls w))) /\
  (forall out : string,
      template rt helpTemplate (DCommand c) = Rendered out ->
      main rt ["help"; Name c] w
      = (Returned tt, mkWorld (set_Stdout (Stdout g1 ++ out) g1) (calls w))
      /\ exit_code (fst (main rt ["help"; Name c] w)) = Some 0).
Proof.
  intros Hinit Hin Hrun Hnd. split.
  - intros rest Hne.
    assert (Hm : main rt (Name c :: rest) w
                 = exit rt (mkWorld (unknown_globals rt (Name c) g1)
                                    (calls w))).
    { apply (main_unknown _ _ _ rt w g1 Hinit); [exact Hne|].
      intros c' Hin' Hn'.
      rewrite (NoDup_map_eq (@Name Handler) (commands g1) c' c Hnd
                 Hin' Hin Hn').
      exact Hrun. }
    split; [exact Hm|]. split; [reflexivity|]. split.
    + unfold unknown_globals. cbn. lia.
    + intros c' args Hc. rewrite Hm in Hc.
      destruct (exit_calls _ _ _ rt
                  (mkWorld (unknown_globals rt (Name c) g1) (calls w)))
        as [k Hk].
      rewrite Hk in Hc. cbn [calls] in Hc.
      apply in_app_or in Hc. destruct Hc as [Hc|Hc]; [exact Hc|].
      exfalso. destruct Hc as [Hc|Hc]; [discriminate|].
      apply in_map_iff in Hc. destruct Hc as (f & Hf & _). discriminate.
  - intros out Hout.
    assert (Hm : main rt ["help"; Name c] w
                 = (Returned tt,
                    mkWorld (set_Stdout (Stdout g1 ++ out) g1) (calls w))).
    { rewrite (main_help _ _ _ rt w g1 Hinit).
      destruct (NoDup_map_first (@Name Handler) (commands g1) c Hnd Hin)
        as (pre & post & Hcs & Hpre).
      unfold bind at 1. unfold help. cbn [List.length Z.of_nat Z.eqb negb].
      cbn [Pos.of_succ_nat Pos.eqb negb hd].
      unfold bind, ret, gets. cbn [globals]. rewrite Hcs.
      rewrite help_range_found by (auto; reflexivity).
      unfold bind, ret. rewrite tmpl_spec, Hout. reflexivity. }
    rewrite Hm. split; reflexivity.
Qed.

Lemma documentation_command_witness :
  fst (run Sample.rt Sample.registry [] ["importpath"]) = Exited 2 /\
  run Sample.rt Sample.registry [] ["help"; "importpath"]
  = (Returned tt,
     mkWorld (set_Stdout ("Several lines." ++ nl)
                (globals (snd (initialize Sample.rt
                                 (start nat Sample.registry [])))))
             []).
Proof.
  assert (Hnd : NoDup ["build"; "install"; "importpath"]).
  { repeat constructor; cbn; intuition discriminate. }
  destruct (documentation_command nat nat (list nat) Sample.rt
              (start nat Sample.registry [])
              (globals (snd (initialize Sample.rt
                               (start nat Sample.registry []))))
              (mkCommand None "importpath" "one line" "Several lines." [])
              eq_refl (or_intror (or_intror (or_introl eq_refl))) eq_refl
              Hnd)
    as [Hu Hh].
  split.
  - destruct (Hu [] ltac:(discriminate)) as (Hm & _).
    unfold run. change (main Sample.rt ["importpath"]
                             (start nat Sample.registry []))
      with (main Sample.rt
                 (Name (mkCommand (@None nat) "importpath" "one line"
                                  "Several lines." []) :: [])
                 (start nat Sample.registry [])).
    rewrite Hm. reflexivity.
  - destruct (Hh ("Several lines." ++ nl) eq_refl) as [Hm _]. exact Hm.
Defined.

(** C9, as stated, fails for a documentation topic named [help]: giving
    its name as the first argument takes the help path (the usage listing
    on standard output, status 0), not the unknown-subcommand path. *)
Lemma help_topic_takes_help_path :
  In (mkCommand None "help" "one line" "Several lines." [])
     (commands (globals (snd (run Sample.rt Sample.help_topic []
                                  ["help"])))) /\
  fst (run Sample.rt Sample.help_topic [] ["help"]) = Returned tt /\
  Stderr (globals (snd (run Sample.rt Sample.help_topic [] ["help"]))) = "" /\
  exitStatus (globals (snd (run Sample.rt Sample.help_topic [] ["help"])))
  = 0 /\
  calls (snd (run Sample.rt Sample.help_topic [] ["help"])) = [].
Proof. vm_compute. repeat split; auto. Qed.

(** ** The exit status *)

(** C2 (as amended).  The exit status starts at 0; each call
    [setExitStatus(n)] sets it to the maximum of its current value and
    [n]; after any finite sequence of calls it is the maximum of 0 and the
    values passed, so it is the maximum value passed whenever one of them
    is not negative; and it is never lowered. *)
Theorem exit_status_max :
  status_after [] = 0 /\
  (forall (Handler Action Ext : Type) (n : Z)
          (w : World Handler Action Ext),
      setExitStatus n w
      = (Returned tt,
         mkWorld (set_exitStatus (Z.max (exitStatus (globals w)) n)
                                 (globals w))
                 (calls w))) /\
  (forall ns : list Z,
      status_after ns = fold_left Z.max ns 0 /\
      0 <= status_after ns /\
      (forall n, In n ns -> n <= status_after ns) /\
      ((exists n, In n ns /\ 0 <= n) -> In (status_after ns) ns)) /\
  (forall pre post : list Z,
      status_after pre <= status_after (pre ++ post)).
Proof.
  assert (Hs : forall ns, status_after ns = fold_left Z.max ns 0).
  { intros ns. unfold status_after. rewrite setExitStatus_all_spec.
    reflexivity. }
  split; [reflexivity|]. split; [|split].
  - intros Handler Action Ext n w. apply setExitStatus_spec.
  - intros ns. rewrite Hs. split; [reflexivity|]. split; [|split].
    + apply fold_max_ge.
    + intros n Hn. apply fold_max_ge_in. exact Hn.
    + intros (n & Hn & Hpos). destruct (fold_max_in ns 0) as [H0|Hin].
      * rewrite H0. pose proof (fold_max_ge_in ns 0 n Hn) as Hle.
        assert (n = 0) by lia. subst n. exact Hn.
      * exact Hin.
  - intros pre post. rewrite !Hs, fold_left_app. apply fold_max_ge.
Qed.

Lemma exit_status_max_witness :
  In 1 [1; 3; 2] /\ 0 <= 1 /\ In (status_after [1; 3; 2]) [1; 3; 2].
Proof.
  assert (H1 : In 1 [1; 3; 2]) by (left; reflexivity).
  assert (H2 : 0 <= 1) by lia.
  split; [exact H1|]. split; [exact H2|].
  exact (proj2 (proj2 (proj2
           (proj1 (proj2 (proj2 exit_status_max)) [1; 3; 2])))
           (ex_intro _ 1 (conj H1 H2))).
Defined.

(** C2, as stated, fails: after the single call [setExitStatus(-1)] the
    status is 0, which is not the maximum value passed. *)
Lemma exit_status_not_max_passed :
  status_after [-1] = 0 /\ status_after [-1] <> max_passed (-1) [].
Proof. split; [reflexivity|]. vm_compute. discriminate. Qed.

(** ** The process relay *)

Module RelayFacts.
Import Relay.

(** Once [executeGoCommand] has returned and [Wait] has closed the pipes,
    nothing reaches the caller's streams any more. *)
Lemma step_after_return (x : Exec) (a : Actor) (s s' : Sys) :
  todo s = [] -> closed s = true -> step x a s = Some s' ->
  todo s' = [] /\ closed s' = true /\
  caller_out s' = caller_out s /\ caller_err s' = caller_err s.
Proof.
  intros Ht Hc. destruct a; cbn [step]; rewrite ?Ht, ?Hc.
  - discriminate.
  - destruct (child s) as [|[|? ?] ?|]; try discriminate.
    intros [= <-]. cbn. auto.
  - destruct (child s) as [|? [|? ?]|]; try discriminate.
    intros [= <-]. cbn. auto.
  - destruct (child s) as [|[|? ?] [|? ?]|]; try discriminate.
    intros [= <-]. cbn. auto.
  - destruct (copier_out s); discriminate.
  - destruct (copier_err s); discriminate.
Qed.

Lemma exec_after_return (x : Exec) (sched : list Actor) (s s' : Sys) :
  todo s = [] -> closed s = true -> exec x sched s = Some s' ->
  caller_out s' = caller_out s /\ caller_err s' = caller_err s.
Proof.
  revert s. induction sched as [|a sched IH]; intros s Ht Hc; cbn [exec].
  - intros [= <-]. auto.
  - destruct (step x a s) as [s1|] eqn:E; [|discriminate].
    destruct (step_after_return x a s s1 Ht Hc E) as (Ht1 & Hc1 & Ho & He).
    intros H. destruct (IH s1 Ht1 Hc1 H). split; congruence.
Qed.

End RelayFacts.

(** C3 (the code departs from it).  The child spawns, writes ["x"] to its
    standard output and ["y"] to its standard error and exits at once;
    [executeGoCommand] can then return with nothing on the caller's
    streams, the bytes still in the pipes that [Wait] has closed, and
    nothing reaches the caller afterwards.  (Under another schedule both
    streams are drained before the return.) *)
Theorem relay_returns_before_drained :
  (exists s : Relay.Sys,
      Relay.reachable Relay.quick_child s /\
      Relay.returned s = true /\
      Relay.caller_out s = "" /\ Relay.caller_err s = "" /\
      Relay.pipe_out s = "x" /\ Relay.pipe_err s = "y" /\
      (forall sched s',
          Relay.exec Relay.quick_child sched s = Some s' ->
          ~ Relay.drained Relay.quick_child s')) /\
  (exists s : Relay.Sys,
      Relay.reachable Relay.quick_child s /\
      Relay.returned s = true /\
      Relay.drained Relay.quick_child s).
Proof.
  split.
  - exists (Relay.mkSys [] Relay.Gone "x" "y" true true true "" "").
    split.
    + exists [Relay.Caller; Relay.Caller; Relay.Caller; Relay.Caller;
              Relay.Caller; Relay.ChildOut; Relay.ChildErr;
              Relay.ChildExit; Relay.Caller].
      vm_compute. reflexivity.
    + split; [reflexivity|]. split; [reflexivity|].
      split; [reflexivity|]. split; [reflexivity|].
      split; [reflexivity|].
      intros sched s' H [Ho _].
      apply RelayFacts.exec_after_return in H; [|reflexivity|reflexivity].
      destruct H as [H _]. rewrite H in Ho. discriminate Ho.
  - exists (Relay.mkSys [] Relay.Gone "" "" true true true "x" "y").
    split.
    + exists [Relay.Caller; Relay.Caller; Relay.Caller; Relay.Caller;
              Relay.Caller; Relay.ChildOut; Relay.ChildErr;
              Relay.ChildExit; Relay.CopyOut; Relay.CopyErr; Relay.Caller].
      vm_compute. reflexivity.
    + split; [reflexivity|]. split; reflexivity.
Qed.

(** C4 (the code departs from it).  When [Start] fails, [executeGoCommand]
    prints the error and goes on: it starts both copying goroutines and
    calls [Wait]; and so it does whichever of the three calls fails. *)
Theorem relay_continues_after_failure :
  Relay.executeGoCommand Relay.no_go
  = [Relay.DoStdoutPipe; Relay.DoStderrPipe; Relay.DoStart;
     Relay.DoPrintln "exec: go: executable file not found";
     Relay.DoGoCopy OsStdout; Relay.DoGoCopy OsStderr; Relay.DoWait] /\
  (forall x : Relay.Exec,
      exists ops,
        Relay.executeGoCommand x
        = (ops ++ [Relay.DoGoCopy OsStdout; Relay.DoGoCopy OsStderr;
                   Relay.DoWait])%list) /\
  (exists s : Relay.Sys,
      Relay.reachable Relay.no_go s /\ Relay.returned s = true /\
      Relay.copier_out s = true /\ Relay.copier_err s = true /\
      Relay.caller_out s = "exec: go: executable file not found" ++ nl).
Proof.
  split; [vm_compute; reflexivity|]. split.
  - intros x. unfold Relay.executeGoCommand.
    exists ([Relay.DoStdoutPipe] ++ Relay.report (Relay.StdoutPipe_err x)
            ++ [Relay.DoStderrPipe] ++ Relay.report (Relay.StderrPipe_err x)
            ++ [Relay.DoStart] ++ Relay.report (Relay.Start_err x))%list.
    rewrite <- !app_assoc. reflexivity.
  - exists (Relay.mkSys [] Relay.NotStarted "" "" true true true
              ("exec: go: executable file not found" ++ nl) "").
    split.
    + exists [Relay.Caller; Relay.Caller; Relay.Caller; Relay.Caller;
              Relay.Caller; Relay.Caller; Relay.Caller].
      vm_compute. reflexivity.
    + repeat split.
Qed.

(* ================================================================== *)
(** * Further properties *)
(* ================================================================== *)

Section MoreProcessFacts.
Variables Handler Action Ext : Type.
Variable rt : Runtime Handler Action Ext.
Local Abbreviation Globals := (Globals Handler Action Ext).
Local Abbreviation World := (World Handler Action Ext).
Local Abbreviation Command := (Command Handler).
Implicit Types (w : World) (g : Globals).

(** The loop of [main] either finds no runnable command of that name, or
    runs the first one and goes to the shutdown point. *)
Lemma main_range_cases (cs : list Command) (arg0 : string)
      (rest : list string) w :
  main_range rt cs arg0 rest w = (Returned false, w) \/
  exists c h,
    In c cs /\ Name c = arg0 /\ Run c = Some h /\
    main_range rt cs arg0 rest w
    = (record (CallRun c rest) ;; call (run_handler rt h c rest) ;;
       exit rt ;; ret true) w.
Proof.
  induction cs as [|c cs IH]; cbn [main_range]; [left; reflexivity|].
  destruct (String.eqb_spec (Name c) arg0) as [E|E].
  - destruct (Run c) as [h|] eqn:Hr.
    + right. exists c, h. cbn [In]. auto.
    + destruct IH as [IH|(c' & h & Hin & IH)]; [left; exact IH|].
      right. exists c', h. cbn [In]. tauto.
  - destruct IH as [IH|(c' & h & Hin & IH)]; [left; exact IH|].
    right. exists c', h. cbn [In]. tauto.
Qed.

(** What the handler step leaves, by the outcome of the handler. *)
Lemma run_then_exit (c : Command) (h : Handler) (rest : list string) w :
  (record (CallRun c rest) ;; call (run_handler rt h c rest) ;;
   exit rt ;; ret true) w
  = match run_handler rt h c rest (globals w) with
    | (Returned _, g2) =>
        (abort (fst (exit rt (mkWorld g2 (calls w ++ [CallRun c rest])))),
         snd (exit rt (mkWorld g2 (calls w ++ [CallRun c rest]))))
    | (o, g2) => (abort o, mkWorld g2 (calls w ++ [CallRun c rest]))
    end.
Proof.
  unfold bind at 1. unfold record at 1. unfold bind at 1. unfold call at 1.
  cbn [globals calls].
  destruct (run_handler rt h c rest (globals w)) as [[[]| | |] g2];
    try reflexivity.
  unfold bind, ret.
  pose proof (exit_never_returns _ _ _ rt
                (mkWorld g2 (calls w ++ [CallRun c rest]))) as Hx.
  destruct (exit rt _) as [[[]| | |] w']; cbn in *; congruence.
Qed.

End MoreProcessFacts.

(** X1.  When initialization fails, [main] returns at once: the process
    ends with status 0, nothing is written to standard error, the exit
    status and the cleanup chain are untouched, and no handler, [exit] or
    cleanup action is called. *)
Theorem main_initialization_failure (Handler Action Ext : Type)
        (rt : Runtime Handler Action Ext) (args : list string)
        (w w1 : World Handler Action Ext) :
  initialize rt w = (Returned false, w1) ->
  main rt args w = (Returned tt, w1) /\
  exit_code (fst (main rt args w)) = Some 0 /\
  calls w1 = calls w /\
  Stderr (globals w1) = Stderr (globals w) /\
  exitStatus (globals w1) = exitStatus (globals w) /\
  atexitFuncs (globals w1) = atexitFuncs (globals w).
Proof.
  intros Hinit.
  assert (Hm : main rt args w = (Returned tt, w1)).
  { unfold main. unfold bind at 1. rewrite Hinit. reflexivity. }
  destruct (initialize_spec _ _ _ rt w) as (b & g' & He & K & _).
  rewrite Hinit in He. injection He as <- ->.
  destruct K as (K1 & K2 & K3 & _).
  rewrite Hm. cbn [fst globals calls]. auto 10.
Qed.

(** X2.  On every run, whatever the handlers, the cleanup actions, the
    templates and the files do, [main] calls at most one handler, and only
    a handler of a registered command named by the first argument, with
    the remaining arguments; it enters [exit] at most once, after the
    handler if there is one; and cleanup actions are called only after
    [exit] has been entered. *)
Theorem main_calls_shape (Handler Action Ext : Type)
        (rt : Runtime Handler Action Ext) (args : list string)
        (w : World Handler Action Ext) :
  exists l : list (Call Handler Action),
    calls (snd (main rt args w)) = (calls w ++ l)%list /\
    (l = [] \/
     (exists fs, l = CallExit :: map CallCleanup fs) \/
     (exists c h,
         Run c = Some h /\ Name c = hd "" args /\
         (l = [CallRun c (tl args)] \/
          exists fs,
            l = CallRun c (tl args) :: CallExit :: map CallCleanup fs))).
Proof.
  destruct (initialize_spec _ _ _ rt w) as (b & g1 & Hinit & _).
  destruct b.
  2:{ exists []. unfold main. unfold bind at 1. rewrite Hinit.
      cbn. rewrite app_nil_r. auto. }
  destruct args as [|arg0 rest].
  { exists []. rewrite app_nil_r. split; [|auto].
    rewrite (main_no_arguments _ _ _ rt w g1 Hinit). unfold bind, ret.
    destruct (usage_calls _ _ _ rt (mkWorld g1 (calls w))) as [Hc _].
    destruct (usage rt _) as [[[]| | |] w']; exact Hc. }
  destruct (String.eqb_spec arg0 "help") as [->|Hne].
  { exists []. rewrite app_nil_r. split; [|auto].
    rewrite (main_help _ _ _ rt w g1 Hinit). unfold bind, ret.
    destruct (help_calls _ _ _ rt rest (mkWorld g1 (calls w))) as [Hc _].
    destruct (help rt rest _) as [[[]| | |] w']; exact Hc. }
  rewrite (main_command _ _ _ rt w g1 Hinit arg0 rest Hne).
  unfold bind at 1.
  destruct (main_range_cases _ _ _ rt (commands g1) arg0 rest
              (mkWorld g1 (calls w))) as [Hskip|(c & h & _ & Hn & Hr & Hrun)].
  - rewrite Hskip. unfold bind at 1. unfold write at 1. unfold modify at 1.
    unfold bind at 1. rewrite setExitStatus_spec. cbn [globals calls].
    match goal with |- context [exit rt ?w0] =>
      destruct (exit_calls _ _ _ rt w0) as [k Hk] end.
    eexists. split; [exact Hk|]. right. left. eexists. reflexivity.
  - rewrite Hrun, run_then_exit. cbn [globals calls hd tl].
    destruct (run_handler rt h c rest g1) as [[[]| | |] g2]; cbn [fst snd].
    + destruct (exit_calls _ _ _ rt
                  (mkWorld g2 (calls w ++ [CallRun c rest]))) as [k Hk].
      cbn [calls globals] in Hk. rewrite <- app_assoc in Hk.
      cbn [app] in Hk.
      destruct (exit rt _) as [[[]| | |] w']; cbn [fst snd abort] in *;
        (eexists; split; [exact Hk|]; right; right; exists c, h;
         split; [exact Hr|]; split; [exact Hn|]; right; eexists;
         reflexivity).
    + exists [CallRun c rest]. split; [reflexivity|]. right. right.
      exists c, h. auto.
    + exists [CallRun c rest]. split; [reflexivity|]. right. right.
      exists c, h. auto.
    + exists [CallRun c rest]. split; [reflexivity|]. right. right.
      exists c, h. auto.
Qed.

Lemma main_initialization_failure_witness :
  run Variants.no_path Sample.registry [] ["build"; "x"]
  = (Returned tt,
     snd (initialize Variants.no_path (start nat Sample.registry []))).
Proof.
  exact (proj1 (main_initialization_failure nat nat (list nat)
                  Variants.no_path ["build"; "x"]
                  (start nat Sample.registry [])
                  (snd (initialize Variants.no_path
                          (start nat Sample.registry [])))
                  eq_refl)).
Defined.

(** X3.  After a successful initialization, when the handler of the
    dispatched command does not return (it ends the process itself, as
    [Command.Usage] does, or panics), the process ends with the outcome of
    the handler: [exit] is never entered and no cleanup action is run,
    whatever is registered. *)
Theorem main_handler_does_not_return (Handler Action Ext : Type)
        (rt : Runtime Handler Action Ext) (w : World Handler Action Ext)
        (g1 g2 : Globals Handler Action Ext)
        (pre post : list (Command Handler)) (c : Command Handler)
        (h : Handler) (arg0 : string) (rest : list string)
        (o : Outcome unit) :
  initialize rt w = (Returned true, mkWorld g1 (calls w)) ->
  arg0 <> "help" ->
  commands g1 = (pre ++ c :: post)%list ->
  (forall c', In c' pre -> Name c' = arg0 -> Run c' = None) ->
  Name c = arg0 -> Run c = Some h ->
  run_handler rt h c rest g1 = (o, g2) ->
  o <> Returned tt ->
  main rt (arg0 :: rest) w
  = (o, mkWorld g2 (calls w ++ [CallRun c rest])).
Proof.
  intros Hinit Hne Hcs Hpre Hn Hr Hh Ho.
  rewrite (main_command _ _ _ rt w g1 Hinit arg0 rest Hne).
  unfold bind at 1. rewrite Hcs.
  rewrite (main_range_found _ _ _ rt pre post c h arg0 rest _ Hpre Hn Hr).
  rewrite run_then_exit. cbn [globals calls]. rewrite Hh.
  destruct o as [[]| | |]; try reflexivity. congruence.
Qed.

Lemma main_handler_does_not_return_witness :
  fst (run Variants.stopping Sample.registry [] ["install"; "x"])
  = Exited 2 /\
  calls (snd (run Variants.stopping Sample.registry [] ["install"; "x"]))
  = [CallRun (mkCommand (Some 5%nat) "install <pkg>" "one line"
                        "Several lines." []) ["x"]].
Proof.
  pose proof (main_handler_does_not_return nat nat (list nat)
                Variants.stopping (start nat Sample.registry [])
                (globals (snd (initialize Variants.stopping
                                 (start nat Sample.registry []))))
                _
                [mkCommand (Some 3%nat) "build [flags] <pkg>" "one line"
                           "Several lines." []]
                [mkCommand None "importpath" "one line" "Several lines." []]
                (mkCommand (Some 5%nat) "install <pkg>" "one line"
                           "Several lines." [])
                5%nat "install" ["x"] (Exited 2)
                eq_refl ltac:(discriminate) eq_refl
                ltac:(intros c' [<-|[]]; discriminate) eq_refl eq_refl
                eq_refl ltac:(discriminate)) as H.
  unfold run. rewrite H. split; reflexivity.
Defined.

(** X4.  After a successful initialization, a run without arguments writes
    the rendering of the usage template on the whole list of commands to
    standard error, leaves standard output as it is, and ends the process
    with status 2. *)
Theorem main_without_arguments (Handler Action Ext : Type)
        (rt : Runtime Handler Action Ext) (w : World Handler Action Ext)
        (g1 : Globals Handler Action Ext) (out : string) :
  initialize rt w = (Returned true, mkWorld g1 (calls w)) ->
  template rt (usageTemplate g1) (DCommands (commands g1)) = Rendered out ->
  main rt [] w
  = (Exited 2, mkWorld (set_Stderr (Stderr g1 ++ out) g1) (calls w)) /\
  Stdout g1 = Stdout (globals w).
Proof.
  intros Hinit Hout.
  destruct (initialize_spec _ _ _ rt w) as (b & g' & He & _ & HS).
  rewrite Hinit in He. injection He as <- <-.
  split; [|apply HS; reflexivity].
  rewrite (main_no_arguments _ _ _ rt w g1 Hinit).
  unfold bind at 1. unfold usage. unfold bind at 1.
  unfold printUsage, bind, gets. cbn [globals].
  rewrite tmpl_spec, Hout. reflexivity.
Qed.

Lemma main_without_arguments_witness :
  fst (run Sample.rt Sample.registry [] []) = Exited 2 /\
  Stderr (globals (snd (run Sample.rt Sample.registry [] [])))
  = "build install importpath" ++ nl.
Proof.
  destruct (main_without_arguments nat nat (list nat) Sample.rt
              (start nat Sample.registry [])
              (globals (snd (initialize Sample.rt
                               (start nat Sample.registry []))))
              ("build install importpath" ++ nl) eq_refl eq_refl)
    as [H _].
  unfold run. rewrite H. split; reflexivity.
Defined.

(** X5.  After a successful initialization, [help] with one argument that
    is the name of no registered command writes the unknown-topic error to
    standard error and ends the process with status 2; it writes nothing
    to standard output and calls nothing. *)
Theorem help_unknown_topic (Handler Action Ext : Type)
        (rt : Runtime Handler Action Ext) (w : World Handler Action Ext)
        (g1 : Globals Handler Action Ext) (arg : string) :
  initialize rt w = (Returned true, mkWorld g1 (calls w)) ->
  (forall c, In c (commands g1) -> Name c <> arg) ->
  main rt ["help"; arg] w
  = (Exited 2,
     mkWorld (set_Stderr (Stderr g1 ++ "Unknown help topic "
                          ++ fmt_sharp_q rt arg ++ ".  Run 'gpm help'."
                          ++ nl) g1)
             (calls w)).
Proof.
  intros Hinit Hnone.
  assert (Hr : forall cs w0,
             (forall c, In c cs -> Name c <> arg) ->
             help_range rt cs arg w0 = (Returned false, w0)).
  { induction cs as [|c cs IH]; intros w0 H; cbn [help_range];
      [reflexivity|].
    rewrite (proj2 (String.eqb_neq (Name c) arg))
      by (apply H; left; reflexivity).
    apply IH. intros c' Hin. apply H. right. exact Hin. }
  rewrite (main_help _ _ _ rt w g1 Hinit).
  unfold bind at 1. unfold help. cbn [List.length Z.of_nat Z.eqb].
  cbn [Pos.of_succ_nat Pos.eqb negb hd].
  unfold bind, ret, gets. cbn [globals]. rewrite Hr by assumption.
  reflexivity.
Qed.

Lemma help_unknown_topic_witness :
  fst (run Sample.rt Sample.registry [] ["help"; "zzz"]) = Exited 2 /\
  Stderr (globals (snd (run Sample.rt Sample.registry [] ["help"; "zzz"])))
  = "Unknown help topic `zzz`.  Run 'gpm help'." ++ nl.
Proof.
  pose proof (help_unknown_topic nat nat (list nat) Sample.rt
                (start nat Sample.registry [])
                (globals (snd (initialize Sample.rt
                                 (start nat Sample.registry []))))
                "zzz" eq_refl
                ltac:(intros c [<-|[<-|[<-|[]]]]; discriminate)) as H.
  unfold run. rewrite H. split; reflexivity.
Defined.

(** X6.  After a successful initialization, when the usage template does
    not parse, [help] without an argument panics with nothing written;
    when its execution fails, the output produced before the failure is
    already on standard output when the panic starts.  Either way the
    process ends with status 2 without entering [exit]. *)
Theorem help_template_failure (Handler Action Ext : Type)
        (rt : Runtime Handler Action Ext) (w : World Handler Action Ext)
        (g1 : Globals Handler Action Ext) :
  initialize rt w = (Returned true, mkWorld g1 (calls w)) ->
  (template rt (usageTemplate g1) (DCommands (commands g1)) = ParseError ->
   main rt ["help"] w = (Panicked, mkWorld g1 (calls w))) /\
  (forall partial : string,
      template rt (usageTemplate g1) (DCommands (commands g1))
      = ExecError partial ->
      main rt ["help"] w
      = (Panicked,
         mkWorld (set_Stdout (Stdout g1 ++ partial) g1) (calls w))) /\
  exit_code (@Panicked unit) = Some 2.
Proof.
  intros Hinit. split; [|split; [|reflexivity]].
  - intros Ht. rewrite (main_help _ _ _ rt w g1 Hinit).
    unfold bind at 1. unfold help. cbn [List.length Z.of_nat Z.eqb].
    unfold printUsage, bind, gets. cbn [globals].
    rewrite tmpl_spec, Ht. reflexivity.
  - intros partial Ht. rewrite (main_help _ _ _ rt w g1 Hinit).
    unfold bind at 1. unfold help. cbn [List.length Z.of_nat Z.eqb].
    unfold printUsage, bind, gets. cbn [globals].
    rewrite tmpl_spec, Ht. reflexivity.
Qed.

Lemma help_template_failure_witness :
  fst (run Variants.broken Sample.registry [] ["help"]) = Panicked /\
  Stdout (globals (snd (run Variants.broken Sample.registry [] ["help"])))
  = "gpm is".
Proof.
  destruct (help_template_failure nat nat (list nat) Variants.broken
              (start nat Sample.registry [])
              (globals (snd (initialize Variants.broken
                               (start nat Sample.registry []))))
              eq_refl) as (_ & H & _).
  unfold run. rewrite (H "gpm is" eq_refl). split; reflexivity.
Defined.

(** X7.  After a successful initialization, [help] with the name of a
    registered command renders the help template on the first command of
    the registry that carries the name, whether it has a handler or not
    and whether later commands share the name or not; the process ends
    with status 0. *)
Theorem help_first_match (Handler Action Ext : Type)
        (rt : Runtime Handler Action Ext) (w : World Handler Action Ext)
        (g1 : Globals Handler Action Ext)
        (pre post : list (Command Handler)) (c : Command Handler)
        (out : string) :
  initialize rt w = (Returned true, mkWorld g1 (calls w)) ->
  commands g1 = (pre ++ c :: post)%list ->
  (forall c', In c' pre -> Name c' <> Name c) ->
  template rt helpTemplate (DCommand c) = Rendered out ->
  main rt ["help"; Name c] w
  = (Returned tt, mkWorld (set_Stdout (Stdout g1 ++ out) g1) (calls w)).
Proof.
  intros Hinit Hcs Hpre Hout.
  rewrite (main_help _ _ _ rt w g1 Hinit).
  unfold bind at 1. unfold help. cbn [List.length Z.of_nat Z.eqb].
  cbn [Pos.of_succ_nat Pos.eqb negb hd].
  unfold bind, ret, gets. cbn [globals]. rewrite Hcs.
  rewrite help_range_found by (auto; reflexivity).
  unfold bind, ret. rewrite tmpl_spec, Hout. reflexivity.
Qed.

Lemma help_first_match_witness :
  run Sample.rt Sample.registry [] ["help"; "install"]
  = (Returned tt,
     mkWorld (set_Stdout ("Several lines." ++ nl)
                (globals (snd (initialize Sample.rt
                                 (start nat Sample.registry [])))))
             []).
Proof.
  exact (help_first_match nat nat (list nat) Sample.rt
           (start nat Sample.registry [])
           (globals (snd (initialize Sample.rt
                            (start nat Sample.registry []))))
           [mkCommand (Some 3%nat) "build [flags] <pkg>" "one line"
                      "Several lines." []]
           [mkCommand None "importpath" "one line" "Several lines." []]
           (mkCommand (Some 5%nat) "install <pkg>" "one line"
                      "Several lines." [])
           ("Several lines." ++ nl)
           eq_refl eq_refl ltac:(intros c' [<-|[]]; discriminate) eq_refl).
Defined.

(** ** More on the lifecycle coordinator *)

Lemma fold_max_perm (ns ns' : list Z) :
  Permutation ns ns' ->
  forall a, fold_left Z.max ns a = fold_left Z.max ns' a.
Proof.
  induction 1 as [|x l l' _ IH|x y l|l l' l'' _ IH1 _ IH2]; intros a;
    cbn [fold_left].
  - reflexivity.
  - apply IH.
  - f_equal. lia.
  - rewrite IH1. apply IH2.
Qed.

(** X8.  The exit status after a sequence of [setExitStatus] calls does not
    depend on the order of the calls, and repeating a call changes
    nothing: the calls may be interleaved in any way. *)
Theorem setExitStatus_order_irrelevant (Handler Action Ext : Type)
        (w : World Handler Action Ext) :
  (forall ns ns' : list Z,
      Permutation ns ns' ->
      setExitStatus_all ns w = setExitStatus_all ns' w) /\
  (forall (n : Z) (ns : list Z),
      setExitStatus_all (n :: n :: ns) w = setExitStatus_all (n :: ns) w).
Proof.
  split.
  - intros ns ns' Hp. rewrite !setExitStatus_all_spec.
    rewrite (fold_max_perm ns ns' Hp). reflexivity.
  - intros n ns. rewrite !setExitStatus_all_spec. cbn [fold_left].
    rewrite <- Z.max_assoc, Z.max_id. reflexivity.
Qed.

Lemma setExitStatus_order_irrelevant_witness :
  setExitStatus_all [2; 7; 1] (start nat Sample.registry ([] : list nat))
  = setExitStatus_all [7; 1; 2] (start nat Sample.registry []).
Proof.
  apply (proj1 (setExitStatus_order_irrelevant nat nat (list nat)
                  (start nat Sample.registry []))).
  apply Permutation_cons_append with (l := [7; 1]) (x := 2).
Defined.

Section ChainFacts.
Variables Handler Action Ext : Type.
Variable rt : Runtime Handler Action Ext.
Implicit Types (w : World Handler Action Ext).

Lemma all_return_app (pre post : list Action) :
  all_return rt (pre ++ post) ->
  all_return rt pre /\ all_return rt post.
Proof.
  intros H. split; intros f g Hin; apply H; apply in_or_app; auto.
Qed.

Lemma exit_range_app (pre post : list Action) w :
  all_return rt pre ->
  exit_range rt (pre ++ post) w
  = exit_range rt post
      (mkWorld (after_actions rt pre (globals w))
               (calls w ++ map CallCleanup pre)).
Proof.
  revert w. induction pre as [|f pre IH]; intros w Hall.
  - cbn. rewrite app_nil_r, world_eta. reflexivity.
  - cbn [app]. rewrite exit_range_cons.
    pose proof (Hall f (globals w) (or_introl eq_refl)) as Hf.
    unfold after_actions. cbn [fold_left].
    destruct (run_action rt f (globals w)) as [o g']. cbn [fst snd] in *.
    subst o. rewrite IH.
    + cbn [globals calls map]. rewrite <- app_assoc. reflexivity.
    + intros f' g Hin. apply Hall. right. exact Hin.
Qed.

End ChainFacts.

(** X9.  When a cleanup action does not return (it ends the process or
    panics), the shutdown point stops there: the actions registered before
    it have run, the ones registered after it are never called, and the
    process ends with the outcome of that action instead of the exit
    status. *)
Theorem exit_stops_at_failing_action (Handler Action Ext : Type)
        (rt : Runtime Handler Action Ext) (w : World Handler Action Ext)
        (pre post : list Action) (f : Action) (o : Outcome unit)
        (g' : Globals Handler Action Ext) :
  atexitFuncs (globals w) = (pre ++ f :: post)%list ->
  all_return rt pre ->
  run_action rt f (after_actions rt pre (globals w)) = (o, g') ->
  o <> Returned tt ->
  exit rt w
  = (o, mkWorld g' (calls w ++ CallExit
                      :: map CallCleanup (pre ++ [f]))).
Proof.
  intros Hfs Hall Hf Ho. rewrite exit_unfold, Hfs.
  rewrite exit_range_app by exact Hall. rewrite exit_range_cons.
  cbn [globals calls]. rewrite Hf. rewrite map_app. cbn [map].
  rewrite <- !app_assoc. cbn [app].
  destruct o as [[]| | |]; try reflexivity. congruence.
Qed.

Lemma exit_stops_at_failing_action_witness :
  exit Variants.failing
       (mkWorld (set_atexitFuncs [1%nat; 0%nat; 2%nat]
                   (globals (start nat Sample.registry [])))
                [])
  = (Exited 9,
     mkWorld (mkGlobals (mkConfig "" "" "" "" "") "" Sample.registry 0 ""
                        [1%nat; 0%nat; 2%nat] "" "" [1%nat])
             [CallExit; CallCleanup 1%nat; CallCleanup 0%nat]).
Proof.
  assert (Hall : all_return Variants.failing [1%nat])
    by (intros f g [<-|[]]; reflexivity).
  exact (exit_stops_at_failing_action nat nat (list nat) Variants.failing
           (mkWorld (set_atexitFuncs [1%nat; 0%nat; 2%nat]
                       (globals (start nat Sample.registry [])))
                    [])
           [1%nat] [2%nat] 0%nat (Exited 9)
           (mkGlobals (mkConfig "" "" "" "" "") "" Sample.registry 0 ""
                      [1%nat; 0%nat; 2%nat] "" "" [1%nat])
           eq_refl Hall eq_refl ltac:(discriminate)).
Defined.

(** X10.  The shutdown point runs the cleanup chain as it stands when
    [exit] is entered, and ends the process with the exit status as it
    stands after the last action: an action registered by a cleanup
    action during the shutdown is not called, and a status raised by a
    cleanup action is the status of the process. *)
Theorem exit_runs_entry_chain (Handler Action Ext : Type)
        (rt : Runtime Handler Action Ext) (w : World Handler Action Ext) :
  all_return rt (atexitFuncs (globals w)) ->
  calls (snd (exit rt w))
  = (calls w ++ CallExit :: map CallCleanup (atexitFuncs (globals w)))%list
  /\ globals (snd (exit rt w))
     = after_actions rt (atexitFuncs (globals w)) (globals w)
  /\ fst (exit rt w) = Exited (exitStatus (globals (snd (exit rt w)))).
Proof.
  intros Hall. rewrite exit_all_return by exact Hall. cbn. auto.
Qed.

Lemma exit_runs_entry_chain_witness :
  exit Variants.busy
       (mkWorld (set_atexitFuncs [4%nat]
                   (globals (start nat Sample.registry [])))
                [])
  = (Exited 4,
     mkWorld (mkGlobals (mkConfig "" "" "" "" "") "" Sample.registry 4 ""
                        [4%nat; 14%nat] "" "" [4%nat])
             [CallExit; CallCleanup 4%nat]).
Proof.
  pose (w := mkWorld (set_atexitFuncs [4%nat]
                        (globals (start nat Sample.registry ([] : list nat))))
                     ([] : list (Call nat nat))).
  assert (Hall : all_return Variants.busy (atexitFuncs (globals w)))
    by (intros f g _; reflexivity).
  destruct (exit_runs_entry_chain nat nat (list nat) Variants.busy w Hall)
    as (Hc & Hg & Ho).
  change (exit Variants.busy w
          = (Exited 4,
             mkWorld (mkGlobals (mkConfig "" "" "" "" "") ""
                                Sample.registry 4 "" [4%nat; 14%nat] "" ""
                                [4%nat])
                     [CallExit; CallCleanup 4%nat])).
  destruct (exit Variants.busy w) as [o w'] eqn:E. cbn [fst snd] in *.
  destruct w' as [g' c']. cbn [globals calls] in *. subst o g' c'.
  reflexivity.
Defined.

(** ** More on initialization *)

Section ReplaceFacts.

Lemma ReplaceByte_free (s : string) (old new : ascii) :
  old <> new -> free_of old (ReplaceByte s old new).
Proof.
  intros Hne. induction s as [|c s IH]; cbn [ReplaceByte].
  - unfold free_of. cbn. tauto.
  - apply free_of_cons. split; [|exact IH].
    destruct (Ascii.eqb_spec c old); congruence.
Qed.

Lemma ReplaceByte_length (s : string) (old new : ascii) :
  String.length (ReplaceByte s old new) = String.length s.
Proof.
  induction s as [|c s IH]; cbn [ReplaceByte String.length];
    [|rewrite IH]; reflexivity.
Qed.

Lemma ReplaceByte_id (s : string) (old new : ascii) :
  free_of old s -> ReplaceByte s old new = s.
Proof.
  induction s as [|c s IH]; intros H; cbn [ReplaceByte]; [reflexivity|].
  apply free_of_cons in H. destruct H as [Hc Hs].
  rewrite IH by exact Hs.
  destruct (Ascii.eqb_spec c old); congruence.
Qed.

Lemma len_zero (s : string) : (len s =? 0) = true <-> s = "".
Proof.
  unfold len. destruct s; cbn [String.length].
  - split; reflexivity.
  - split; [|discriminate]. intros H. apply Z.eqb_eq in H. lia.
Qed.

End ReplaceFacts.

Lemma getAppPath_found (Handler Action Ext : Type)
      (rt : Runtime Handler Action Ext) (w : World Handler Action Ext) :
  LookPath rt "gpm" <> "" ->
  getAppPath rt w
  = (Returned true,
     mkWorld (set_appPath (resolved_path rt) (globals w)) (calls w)).
Proof.
  intros Hne. unfold getAppPath, bind, modify, gets, ret, write.
  cbn [globals calls appPath set_appPath].
  destruct (len (LookPath rt "gpm") =? 0) eqn:E.
  - apply len_zero in E. contradiction.
  - unfold resolved_path. destruct (windows rt); reflexivity.
Qed.

(** X11.  [getAppPath] fails exactly when [gpm] is not found on the search
    path: it then prints its complaint on standard output and leaves the
    application path empty.  Otherwise it succeeds silently; off Windows
    the application path is the path found, on Windows it is the directory
    of that path with every backslash turned into a slash (so it holds no
    backslash and keeps its length) followed by a slash. *)
Theorem getAppPath_result (Handler Action Ext : Type)
        (rt : Runtime Handler Action Ext) (w : World Handler Action Ext) :
  (LookPath rt "gpm" = "" ->
   getAppPath rt w
   = (Returned false,
      mkWorld (set_Stdout
                 (Stdout (globals w)
                  ++ "getAppPath(): Unable to indicate current execute path.")
                 (set_appPath "" (globals w)))
              (calls w))) /\
  (LookPath rt "gpm" <> "" ->
   getAppPath rt w
   = (Returned true,
      mkWorld (set_appPath (resolved_path rt) (globals w)) (calls w))) /\
  (windows rt = false -> resolved_path rt = LookPath rt "gpm") /\
  (windows rt = true ->
   exists dir : string,
     resolved_path rt = dir ++ "/" /\ free_of "\" dir /\
     String.length dir = String.length (Dir rt (LookPath rt "gpm")) /\
     (free_of "\" (Dir rt (LookPath rt "gpm")) ->
      dir = Dir rt (LookPath rt "gpm"))).
Proof.
  split; [|split; [|split]].
  - intros He. unfold getAppPath, bind, modify, gets, ret, write.
    cbn [globals calls appPath set_appPath]. rewrite He. reflexivity.
  - apply getAppPath_found.
  - intros Hw. unfold resolved_path. rewrite Hw. reflexivity.
  - intros Hw. unfold resolved_path. rewrite Hw.
    exists (ReplaceByte (Dir rt (LookPath rt "gpm")) "\" "/").
    split; [reflexivity|]. split; [|split].
    + apply ReplaceByte_free. discriminate.
    + apply ReplaceByte_length.
    + apply ReplaceByte_id.
Qed.

Lemma getAppPath_result_witness :
  getAppPath Variants.on_windows (start nat Sample.registry [])
  = (Returned true,
     mkWorld (set_appPath "C:/tools/gpm/"
                (globals (start nat Sample.registry [])))
             []).
Proof.
  exact (proj1 (proj2 (getAppPath_result nat nat (list nat)
                         Variants.on_windows
                         (start nat Sample.registry [])))
               ltac:(discriminate)).
Defined.

Section LoadFacts.
Variables Handler Action Ext : Type.
Variable rt : Runtime Handler Action Ext.
Local Abbreviation Globals := (Globals Handler Action Ext).
Local Abbreviation World := (World Handler Action Ext).
Local Abbreviation Command := (Command Handler).
Implicit Types (w : World) (g : Globals).

Lemma set_commands_same g : set_commands (commands g) g = g.
Proof. destruct g; reflexivity. Qed.

Lemma with_usage_inv (lang path : string) (c c' : Command) :
  with_usage rt lang path c = Some c' ->
  exists usageBytes : string,
    ReadFile rt (path ++ "i18n/" ++ lang ++ "/usage_" ++ Name c ++ ".txt")
    = inl usageBytes /\
    (Z.of_nat (List.length (Split usageBytes "|||")) <? 2) = false /\
    c' = set_texts c (nth 0 (Split usageBytes "|||") "")
                     (nth 1 (Split usageBytes "|||") "").
Proof.
  unfold with_usage, usage_file.
  destruct (ReadFile rt (path ++ "i18n/" ++ lang ++ "/usage_" ++ Name c
                         ++ ".txt")) as [usageBytes|err]; [|discriminate].
  cbv zeta.
  destruct (Z.of_nat (List.length (Split usageBytes "|||")) <? 2) eqn:E;
    [discriminate|].
  intros [= <-]. exists usageBytes. auto.
Qed.

Lemma loadUsage_range_success (lang path : string)
      (done todo todo' : list Command) w :
  commands (globals w) = (done ++ todo)%list ->
  Forall2 (fun c c' => with_usage rt lang path c = Some c') todo todo' ->
  loadUsage_range rt lang path done todo w
  = (Returned true,
     mkWorld (set_commands (done ++ todo') (globals w)) (calls w)).
Proof.
  intros Hc H. revert done w Hc.
  induction H as [|c c' todo todo' Hcc _ IH]; intros done w Hc.
  - cbn. rewrite <- Hc, set_commands_same, world_eta. reflexivity.
  - cbn [loadUsage_range].
    destruct (with_usage_inv lang path c c' Hcc) as (ub & -> & -> & ->).
    unfold bind at 1. unfold modify at 1.
    rewrite IH.
    + cbn [globals calls]. rewrite <- app_assoc. cbn [app].
      destruct (globals w); reflexivity.
    + cbn. rewrite <- app_assoc. reflexivity.
Qed.

Lemma loadUsage_range_failure (lang path : string)
      (done ok ok' rest : list Command) (bad : Command) w :
  commands (globals w) = (done ++ ok ++ bad :: rest)%list ->
  Forall2 (fun c c' => with_usage rt lang path c = Some c') ok ok' ->
  with_usage rt lang path bad = None ->
  loadUsage_range rt lang path done (ok ++ bad :: rest) w
  = (Returned false,
     mkWorld (set_Stdout (Stdout (globals w)
                          ++ usage_complaint rt lang path bad)
                (set_commands (done ++ ok' ++ bad :: rest) (globals w)))
             (calls w)).
Proof.
  intros Hc H Hbad. revert done w Hc.
  induction H as [|c c' ok ok' Hcc _ IH]; intros done w Hc.
  - cbn [app] in *. cbn [loadUsage_range].
    unfold with_usage, usage_complaint, usage_file in *.
    rewrite <- Hc, set_commands_same.
    destruct (ReadFile rt _) as [usageBytes|err].
    + cbv zeta in Hbad.
      destruct (Z.of_nat (List.length (Split usageBytes "|||")) <? 2);
        [|discriminate].
      reflexivity.
    + reflexivity.
  - cbn [app] in *. cbn [loadUsage_range].
    destruct (with_usage_inv lang path c c' Hcc) as (ub & -> & -> & ->).
    unfold bind at 1. unfold modify at 1.
    rewrite IH.
    + cbn [globals calls]. rewrite <- !app_assoc. cbn [app].
      destruct (globals w); reflexivity.
    + cbn. rewrite <- app_assoc. reflexivity.
Qed.

Lemma loadUsage_loaded (lang path tpl : string) (cs' : list Command) w :
  ReadFile rt (path ++ "i18n/" ++ lang ++ "/usage.tpl") = inl tpl ->
  Forall2 (fun c c' => with_usage rt lang path c = Some c')
          (commands (globals w)) cs' ->
  loadUsage rt lang path w
  = (Returned true,
     mkWorld (set_commands cs' (set_usageTemplate tpl (globals w)))
             (calls w)).
Proof.
  intros Ht Hcs.
  unfold loadUsage. rewrite Ht. unfold bind at 1. unfold modify at 1.
  unfold bind at 1. unfold gets at 1. cbn [globals calls].
  rewrite (loadUsage_range_success lang path [] _ cs');
    [reflexivity | reflexivity | exact Hcs].
Qed.

End LoadFacts.

(** X12.  When the main usage file and the usage file of every command can
    be read and each command file has at least two parts, [loadUsage]
    succeeds silently: the usage template is the content of the main file,
    and each command gets the first part of its file as short text and the
    second part as long text, in registry order, its usage line, handler
    and flags being kept. *)
Theorem loadUsage_success (Handler Action Ext : Type)
        (rt : Runtime Handler Action Ext) (lang path tpl : string)
        (cs' : list (Command Handler)) (w : World Handler Action Ext) :
  ReadFile rt (path ++ "i18n/" ++ lang ++ "/usage.tpl") = inl tpl ->
  Forall2 (fun c c' => with_usage rt lang path c = Some c')
          (commands (globals w)) cs' ->
  loadUsage rt lang path w
  = (Returned true,
     mkWorld (set_commands cs' (set_usageTemplate tpl (globals w)))
             (calls w)) /\
  same_commands (commands (globals w)) cs'.
Proof.
  intros Ht Hcs. split.
  - exact (loadUsage_loaded _ _ _ rt lang path tpl cs' w Ht Hcs).
  - induction Hcs as [|c c' l l' Hcc _ IH]; constructor; [|exact IH].
    destruct (with_usage_inv _ _ _ rt lang path c c' Hcc)
      as (ub & _ & _ & ->).
    cbn. auto.
Qed.

Lemma loadUsage_success_witness :
  loadUsage Sample.rt "en" "/opt/gpm/" (start nat Sample.registry [])
  = (Returned true,
     mkWorld (set_commands
                [mkCommand (Some 3%nat) "build [flags] <pkg>" "one line"
                           "Several lines." [];
                 mkCommand (Some 5%nat) "install <pkg>" "one line"
                           "Several lines." [];
                 mkCommand None "importpath" "one line" "Several lines." []]
                (set_usageTemplate "one line|||Several lines."
                   (globals (start nat Sample.registry []))))
             []).
Proof.
  refine (proj1 (loadUsage_success nat nat (list nat) Sample.rt "en"
                   "/opt/gpm/" "one line|||Several lines." _
                   (start nat Sample.registry []) eq_refl _)).
  repeat constructor.
Defined.

(** X13.  When the usage file of a command cannot be read or has fewer
    than two parts, [loadUsage] prints a complaint naming that command on
    standard output and fails; the commands before it in the registry keep
    the texts already loaded for them (nothing is rolled back), the
    failing command and the ones after it keep their old texts. *)
Theorem loadUsage_stops_at_bad_file (Handler Action Ext : Type)
        (rt : Runtime Handler Action Ext) (lang path tpl : string)
        (ok ok' rest : list (Command Handler)) (bad : Command Handler)
        (w : World Handler Action Ext) :
  ReadFile rt (path ++ "i18n/" ++ lang ++ "/usage.tpl") = inl tpl ->
  commands (globals w) = (ok ++ bad :: rest)%list ->
  Forall2 (fun c c' => with_usage rt lang path c = Some c') ok ok' ->
  with_usage rt lang path bad = None ->
  loadUsage rt lang path w
  = (Returned false,
     mkWorld (set_Stdout (Stdout (globals w)
                          ++ usage_complaint rt lang path bad)
                (set_commands (ok' ++ bad :: rest)
                   (set_usageTemplate tpl (globals w))))
             (calls w)).
Proof.
  intros Ht Hc Hok Hbad.
  unfold loadUsage. rewrite Ht. unfold bind at 1. unfold modify at 1.
  unfold bind at 1. unfold gets at 1. cbn [globals calls]. cbn [commands set_usageTemplate].
  rewrite Hc.
  rewrite (loadUsage_range_failure _ _ _ rt lang path [] ok ok' rest bad);
    [reflexivity | cbn; exact Hc | exact Hok | exact Hbad].
Qed.

Lemma loadUsage_stops_at_bad_file_witness :
  loadUsage Variants.missing_file "en" "/opt/gpm/"
            (start nat Sample.registry [])
  = (Returned false,
     mkWorld (set_Stdout
                ("loadUsage(): Fail to load usage(install): no such file."
                 ++ nl)
                (set_commands
                   [mkCommand (Some 3%nat) "build [flags] <pkg>" "one line"
                              "Several lines." [];
                    mkCommand (Some 5%nat) "install <pkg>" "" "" [];
                    mkCommand None "importpath" "" "" []]
                   (set_usageTemplate "one line|||Several lines."
                      (globals (start nat Sample.registry [])))))
             []).
Proof.
  refine (loadUsage_stops_at_bad_file nat nat (list nat)
            Variants.missing_file "en" "/opt/gpm/"
            "one line|||Several lines."
            [mkCommand (Some 3%nat) "build [flags] <pkg>" "" "" []]
            [mkCommand (Some 3%nat) "build [flags] <pkg>" "one line"
                       "Several lines." []]
            [mkCommand None "importpath" "" "" []]
            (mkCommand (Some 5%nat) "install <pkg>" "" "" [])
            (start nat Sample.registry []) eq_refl eq_refl _ eq_refl).
  repeat constructor.
Defined.

(** ** The shape of a usage file *)

Section SplitFacts.

Lemma append_empty (s : string) : s ++ "" = s.
Proof. induction s as [|c s IH]; cbn; [|rewrite IH]; reflexivity. Qed.

Lemma append_assoc (a b c : string) : (a ++ b) ++ c = a ++ b ++ c.
Proof. induction a as [|x a IH]; cbn; [|rewrite IH]; reflexivity. Qed.

Lemma append_snoc (a : string) (c : ascii) (r : string) :
  (a ++ String c "") ++ r = a ++ String c r.
Proof. rewrite append_assoc. reflexivity. Qed.

Lemma prefix_bars_other (c : ascii) (s : string) :
  c <> "|"%char -> String.prefix "|||" (String c s) = false.
Proof.
  intros Hc. cbn [String.prefix].
  destruct (ascii_dec "|" c) as [E|E]; [congruence | reflexivity].
Qed.

Lemma prefix_bars (s : string) : String.prefix "|||" ("|||" ++ s) = true.
Proof. cbn. apply prefix_empty. Qed.

(** A string without a bar is one piece. *)
Lemma split_go_plain (acc s : string) (fuel : nat) :
  free_of "|" s -> (String.length s <= fuel)%nat ->
  split_go acc s "|||" fuel = [acc ++ s].
Proof.
  revert acc fuel. induction s as [|c s IH]; intros acc fuel Hs Hf.
  - destruct fuel; cbn [split_go]; rewrite ?append_empty; reflexivity.
  - apply free_of_cons in Hs. destruct Hs as [Hc Hs].
    destruct fuel as [|fuel]; [cbn in Hf; lia|].
    cbn [split_go]. rewrite prefix_bars_other by exact Hc.
    rewrite IH by (cbn in Hf; auto; lia).
    rewrite append_assoc. reflexivity.
Qed.

(** The piece before the first separator, when it holds no bar. *)
Lemma split_go_piece (acc a rest : string) (fuel : nat) :
  free_of "|" a ->
  (String.length a + 3 + String.length rest <= fuel)%nat ->
  split_go acc (a ++ "|||" ++ rest) "|||" fuel
  = (acc ++ a) :: split_go "" rest "|||" (fuel - String.length a - 1).
Proof.
  revert acc fuel. induction a as [|c a IH]; intros acc fuel Ha Hf.
  - destruct fuel as [|fuel]; [lia|].
    change ("" ++ "|||" ++ rest) with (String "|" (String "|" (String "|" rest))).
    cbn [split_go]. change (String "|" (String "|" (String "|" rest)))
      with ("|||" ++ rest).
    rewrite prefix_bars. rewrite append_empty.
    cbn [String.length append]. cbn [String.substring Nat.sub].
    replace (fuel - 0)%nat with fuel by lia.
    rewrite Nat.sub_0_r, substring_all. reflexivity.
  - apply free_of_cons in Ha. destruct Ha as [Hc Ha].
    destruct fuel as [|fuel]; [cbn in Hf; lia|].
    cbn [append split_go]. rewrite prefix_bars_other by exact Hc.
    rewrite IH by (cbn in Hf; auto; lia).
    rewrite append_assoc. cbn [String.length Nat.sub]. reflexivity.
Qed.

End SplitFacts.

(** X14.  A usage file is accepted when its text holds the separator
    ["|||"]: for a file [short|||long] whose two parts hold no bar the
    command gets exactly [short] and [long]; whatever follows a second
    separator is dropped; and a file without any bar is rejected, the
    command being left as it was. *)
Theorem usage_file_parts (Handler Action Ext : Type)
        (rt : Runtime Handler Action Ext) (lang path : string)
        (cmd : Command Handler) (short long : string) :
  free_of "|" short -> free_of "|" long ->
  (ReadFile rt (usage_file lang path cmd) = inl (short ++ "|||" ++ long) ->
   with_usage rt lang path cmd = Some (set_texts cmd short long)) /\
  (forall more : string,
      ReadFile rt (usage_file lang path cmd)
      = inl (short ++ "|||" ++ long ++ "|||" ++ more) ->
      with_usage rt lang path cmd = Some (set_texts cmd short long)) /\
  (ReadFile rt (usage_file lang path cmd) = inl short ->
   with_usage rt lang path cmd = None).
Proof.
  intros Hs Hl. split; [|split].
  - intros Hf. unfold with_usage. rewrite Hf. cbv zeta. unfold Split.
    rewrite (split_go_piece "" short long)
      by (auto; rewrite !length_append; cbn; lia).
    rewrite split_go_plain
      by (auto; rewrite !length_append; cbn; lia).
    reflexivity.
  - intros more Hf. unfold with_usage. rewrite Hf. cbv zeta. unfold Split.
    rewrite (split_go_piece "" short (long ++ "|||" ++ more))
      by (auto; rewrite !length_append; cbn; lia).
    rewrite (split_go_piece "" long more)
      by (auto; rewrite !length_append; cbn; rewrite ?length_append;
          cbn; lia).
    cbn [List.length nth append].
    destruct (Z.of_nat (S (S (List.length (split_go "" more "|||" _)))) <? 2)
      eqn:E; [apply Z.ltb_lt in E; lia|].
    reflexivity.
  - intros Hf. unfold with_usage. rewrite Hf. cbv zeta. unfold Split.
    rewrite split_go_plain by (auto; lia). reflexivity.
Qed.

Lemma usage_file_parts_witness :
  with_usage Sample.rt "en" "/opt/gpm/"
             (mkCommand (Some 3%nat) "build [flags] <pkg>" "" "" [])
  = Some (mkCommand (Some 3%nat) "build [flags] <pkg>" "one line"
                    "Several lines." []).
Proof.
  assert (H1 : free_of "|" "one line")
    by (unfold free_of; cbn; intuition discriminate).
  assert (H2 : free_of "|" "Several lines.")
    by (unfold free_of; cbn; intuition discriminate).
  exact (proj1 (usage_file_parts nat nat (list nat) Sample.rt "en"
                  "/opt/gpm/"
                  (mkCommand (Some 3%nat) "build [flags] <pkg>" "" "" [])
                  "one line" "Several lines." H1 H2)
               eq_refl).
Defined.




(** ** More on [capitalize] *)

Lemma decode_invalid_lead (b : Z) (rest : string) :
  0x80 <= b < 0xC2 \/ 0xF5 <= b <= 0xFF ->
  utf8.DecodeRuneInString (String (byte_of b) rest) = (utf8.RuneError, 1).
Proof.
  intros Hb. pose proof (len_nonneg rest). decode_start.
  by_first b. cmp_all.
  change (Z.shiftr (utf8.int32 (Z.shiftl utf8.xx 31)) 31) with (-1).
  rewrite Z.ldiff_m1_r, Z.land_m1_r, Z.lor_0_l. reflexivity.
Qed.

Lemma decode_lone_lead (b : Z) :
  0xC2 <= b <= 0xF4 ->
  utf8.DecodeRuneInString (String (byte_of b) "") = (utf8.RuneError, 1).
Proof.
  intros Hb. decode_start. change (len "") with 0.
  by_first b; cmp_all; reflexivity.
Qed.

(** X17.  On a string that does not start with a well-formed UTF-8
    sequence, [capitalize] consumes one byte and puts the encoding of the
    mapped replacement character [U+FFFD] in its place: so it does for a
    first byte that cannot start a sequence, and for a string that is a
    lone lead byte.  When the case mapping leaves [U+FFFD] alone, the
    result is the three bytes [EF BF BD] followed by the rest of the
    input, two bytes longer than the input. *)
Theorem capitalize_ill_formed (ToTitle : Z -> Z) :
  (forall (b : Z) (rest : string),
      0x80 <= b < 0xC2 \/ 0xF5 <= b <= 0xFF ->
      capitalize ToTitle (String (byte_of b) rest)
      = utf8.runeString (ToTitle utf8.RuneError) ++ rest) /\
  (forall b : Z,
      0xC2 <= b <= 0xF4 ->
      capitalize ToTitle (String (byte_of b) "")
      = utf8.runeString (ToTitle utf8.RuneError)) /\
  (ToTitle utf8.RuneError = utf8.RuneError ->
   forall (b : Z) (rest : string),
     0x80 <= b < 0xC2 \/ 0xF5 <= b <= 0xFF ->
     capitalize ToTitle (String (byte_of b) rest)
     = String "239" (String "191" (String "189" rest)) /\
     len (capitalize ToTitle (String (byte_of b) rest))
     = len (String (byte_of b) rest) + 2).
Proof.
  assert (H1 : forall (b : Z) (rest : string),
             0x80 <= b < 0xC2 \/ 0xF5 <= b <= 0xFF ->
             capitalize ToTitle (String (byte_of b) rest)
             = utf8.runeString (ToTitle utf8.RuneError) ++ rest).
  { intros b rest Hb. rewrite capitalize_nonempty by discriminate.
    rewrite decode_invalid_lead by exact Hb. cbn [fst snd].
    change (String (byte_of b) rest) with (String (byte_of b) "" ++ rest).
    change 1 with (len (String (byte_of b) "")).
    rewrite slice_from_append. reflexivity. }
  split; [exact H1|]. split.
  - intros b Hb. rewrite capitalize_nonempty by discriminate.
    rewrite decode_lone_lead by exact Hb. cbn [fst snd].
    change (slice_from (String (byte_of b) "") 1) with "".
    apply append_empty.
  - intros Hfix b rest Hb. rewrite (H1 b rest Hb), Hfix.
    change (utf8.runeString utf8.RuneError)
      with (String "239" (String "191" (String "189" ""))).
    split; [reflexivity|].
    unfold len. cbn [append String.length]. lia.
Qed.

Lemma capitalize_ill_formed_witness :
  capitalize Sample.title (String "255" "go")
  = String "239" (String "191" (String "189" "go")).
Proof.
  exact (proj1 (proj2 (proj2 (capitalize_ill_formed Sample.title))
                      eq_refl 255 "go" ltac:(right; lia))).
Defined.

(** X18.  [capitalize] is idempotent on a string that starts with a
    well-formed character whenever the case mapping is: if the mapping
    sends the first character to a Unicode scalar value that it leaves
    alone, capitalizing twice gives the same bytes as capitalizing
    once. *)
Theorem capitalize_idempotent (ToTitle : Z -> Z) (r : Z) (rest : string) :
  utf8.scalar r -> utf8.scalar (ToTitle r) ->
  ToTitle (ToTitle r) = ToTitle r ->
  capitalize ToTitle (capitalize ToTitle (utf8.runeString r ++ rest))
  = capitalize ToTitle (utf8.runeString r ++ rest).
Proof.
  intros Hr Ht Hi.
  rewrite (capitalize_encoded ToTitle r rest Hr).
  rewrite (capitalize_encoded ToTitle (ToTitle r) rest Ht), Hi.
  reflexivity.
Qed.

Lemma capitalize_idempotent_witness :
  capitalize Sample.title (capitalize Sample.title "go")
  = capitalize Sample.title "go".
Proof.
  assert (H1 : utf8.scalar 0x67)
    by (unfold utf8.scalar, utf8.MaxRune, utf8.surrogateMin,
        utf8.surrogateMax; lia).
  assert (H2 : utf8.scalar (Sample.title 0x67))
    by (unfold utf8.scalar, utf8.MaxRune, utf8.surrogateMin,
        utf8.surrogateMax; cbn; lia).
  exact (capitalize_idempotent Sample.title 0x67 "o" H1 H2 eq_refl).
Defined.

(** X19.  A first argument that holds a space is the name of no command,
    the derived names holding none: after a successful initialization it
    always takes the unknown-subcommand path, whatever is registered. *)
Theorem argument_with_space_is_unknown (Handler Action Ext : Type)
        (rt : Runtime Handler Action Ext) (w : World Handler Action Ext)
        (g1 : Globals Handler Action Ext) (arg0 : string)
        (rest : list string) :
  initialize rt w = (Returned true, mkWorld g1 (calls w)) ->
  In " "%char (list_ascii_of_string arg0) ->
  (forall c : Command Handler, Name c <> arg0) /\
  main rt (arg0 :: rest) w
  = exit rt (mkWorld (unknown_globals rt arg0 g1) (calls w)).
Proof.
  intros Hinit Hsp.
  assert (Hn : forall c : Command Handler, Name c <> arg0).
  { intros c E. apply (Name_free_of_space _ c). rewrite E. exact Hsp. }
  split; [exact Hn|].
  apply (main_unknown _ _ _ rt w g1 Hinit).
  - intros ->. cbn in Hsp. intuition discriminate.
  - intros c _ E. destruct (Hn c E).
Qed.

Lemma argument_with_space_is_unknown_witness :
  fst (run Sample.rt Sample.registry [] ["build x"]) = Exited 2.
Proof.
  destruct (argument_with_space_is_unknown nat nat (list nat) Sample.rt
              (start nat Sample.registry [])
              (globals (snd (initialize Sample.rt
                               (start nat Sample.registry []))))
              "build x" [] eq_refl
              ltac:(cbn; auto 10)) as [_ H].
  unfold run. rewrite H. reflexivity.
Defined.

(** ** More on the process relay *)

Module RelayInvariants.
Import Relay.

Lemma exec_invariant (P : Sys -> Prop) (x : Exec) :
  (forall a s s', P s -> step x a s = Some s' -> P s') ->
  forall sched s s', P s -> exec x sched s = Some s' -> P s'.
Proof.
  intros Hstep. induction sched as [|a sched IH]; intros s s' Hs;
    cbn [exec].
  - intros [= <-]. exact Hs.
  - destruct (step x a s) as [s1|] eqn:E; [|discriminate].
    apply IH. exact (Hstep a s s1 Hs E).
Qed.

Lemma program_last (x : Exec) :
  exists ops, executeGoCommand x = (ops ++ [DoWait])%list.
Proof.
  unfold executeGoCommand.
  exists ([DoStdoutPipe] ++ report (StdoutPipe_err x)
          ++ [DoStderrPipe] ++ report (StderrPipe_err x)
          ++ [DoStart] ++ report (Start_err x)
          ++ [DoGoCopy OsStdout; DoGoCopy OsStderr])%list.
  rewrite <- !app_assoc. reflexivity.
Qed.

Lemma positioned_init (x : Exec) : positioned x (init x).
Proof.
  split; [exists []; reflexivity|]. split.
  - cbn. unfold executeGoCommand. discriminate.
  - intros _ _. cbn. unfold executeGoCommand. cbn. right.
    apply in_or_app. right. cbn. right.
    apply in_or_app. right. cbn. auto.
Qed.

Lemma last_op (x : Exec) (done : list Op) (op : Op) :
  executeGoCommand x = (done ++ [op])%list -> op = DoWait.
Proof.
  intros H. destruct (program_last x) as [ops Hp]. rewrite Hp in H.
  apply app_inj_tail in H. destruct H as [_ H]. congruence.
Qed.

Lemma positioned_step (x : Exec) (a : Actor) (s s' : Sys) :
  positioned x s -> step x a s = Some s' -> positioned x s'.
Proof.
  intros ([done Hd] & Hr & Hs) Hstep. destruct a; cbn [step] in Hstep.
  - (* the caller *)
    destruct (todo s) as [|op ops] eqn:Et; [discriminate|].
    assert (Hd' : executeGoCommand x = ((done ++ [op]) ++ ops)%list)
      by (rewrite <- app_assoc; exact Hd).
    assert (Hlast : ops = [] -> op = DoWait).
    { intros ->. rewrite app_nil_r in Hd'. exact (last_op x _ _ Hd'). }
    destruct op as [| | |e|[|]|].
    all: try (injection Hstep as <-; split; [exists (done ++ [DoStdoutPipe])%list; exact Hd'|]).
    all: try (injection Hstep as <-; split; [exists (done ++ [DoStderrPipe])%list; exact Hd'|]).
    all: try (injection Hstep as <-; split; [exists (done ++ [DoStart])%list; exact Hd'|]).
    all: try (injection Hstep as <-; split; [exists (done ++ [DoPrintln e])%list; exact Hd'|]).
    all: try (injection Hstep as <-; split; [exists (done ++ [DoGoCopy OsStdout])%list; exact Hd'|]).
    all: try (injection Hstep as <-; split; [exists (done ++ [DoGoCopy OsStderr])%list; exact Hd'|]).
    all: cbn [todo closed child].
    1-6: split; [intros E; specialize (Hlast E); discriminate|].
    + intros Hok Hc. specialize (Hs Hok Hc). destruct Hs as [|]; [discriminate|assumption].
    + intros Hok Hc. specialize (Hs Hok Hc). destruct Hs as [|]; [discriminate|assumption].
    + intros Hok Hc. rewrite Hok in Hc. discriminate.
    + intros Hok Hc. specialize (Hs Hok Hc). destruct Hs as [|]; [discriminate|assumption].
    + intros Hok Hc. specialize (Hs Hok Hc). destruct Hs as [|]; [discriminate|assumption].
    + intros Hok Hc. specialize (Hs Hok Hc). destruct Hs as [|]; [discriminate|assumption].
    + destruct (child s) as [|o e|] eqn:Ec; [|discriminate|];
        injection Hstep as <-;
        (split; [exists (done ++ [DoWait])%list; exact Hd'|]);
        cbn [todo closed child]; rewrite ?Ec.
      * split; [intros _; split; [reflexivity|discriminate]|].
        intros Hok _. specialize (Hs Hok eq_refl).
        destruct Hs as [|]; [discriminate|assumption].
      * split; [intros _; split; [reflexivity|discriminate]|].
        intros _ Hc. discriminate.
  - (* the child writes to its standard output *)
    destruct (child s) as [|[|c out] err|] eqn:Ec; try discriminate.
    injection Hstep as <-. split; [exists done; exact Hd|].
    cbn [todo closed child]. split.
    + intros E. destruct (proj2 (Hr E) (String c out) err eq_refl).
    + intros _ Hc. discriminate.
  - destruct (child s) as [|out [|c err]|] eqn:Ec; try discriminate.
    injection Hstep as <-. split; [exists done; exact Hd|].
    cbn [todo closed child]. split.
    + intros E. destruct (proj2 (Hr E) out (String c err) eq_refl).
    + intros _ Hc. discriminate.
  - destruct (child s) as [|[|? ?] [|? ?]|] eqn:Ec; try discriminate.
    injection Hstep as <-. split; [exists done; exact Hd|].
    cbn [todo closed child]. split.
    + intros E. split; [exact (proj1 (Hr E)) | discriminate].
    + intros _ Hc. discriminate.
  - destruct (copier_out s); [|discriminate].
    destruct (closed s) eqn:Ecl; [discriminate|].
    destruct (pipe_out s); [discriminate|].
    injection Hstep as <-. split; [exists done; exact Hd|].
    cbn [todo closed child]. split.
    + intros E. destruct (Hr E) as [Hc _]. discriminate.
    + exact Hs.
  - destruct (copier_err s); [|discriminate].
    destruct (closed s) eqn:Ecl; [discriminate|].
    destruct (pipe_err s); [discriminate|].
    injection Hstep as <-. split; [exists done; exact Hd|].
    cbn [todo closed child]. split.
    + intros E. destruct (Hr E) as [Hc _]. discriminate.
    + exact Hs.
Qed.

Lemma positioned_reachable (x : Exec) (s : Sys) :
  reachable x s -> positioned x s.
Proof.
  intros [sched H].
  exact (exec_invariant (positioned x) x (positioned_step x)
                        sched (init x) s (positioned_init x) H).
Qed.

Lemma conserved_init (x : Exec) : succeeds x -> conserved x (init x).
Proof.
  intros (H1 & H2 & H3). unfold conserved, init, pending, executeGoCommand.
  cbn [caller_out caller_err pipe_out pipe_err child todo fst snd].
  rewrite H1, H2, H3. cbn. repeat split; auto.
  intros e H. intuition discriminate.
Qed.

Lemma conserved_step (x : Exec) (a : Actor) (s s' : Sys) :
  Start_err x = None ->
  conserved x s -> step x a s = Some s' -> conserved x s'.
Proof.
  intros Hok (Ho & He & Hp & Hs) Hstep. unfold conserved, pending in *.
  destruct a; cbn [step] in Hstep.
  - destruct (todo s) as [|op ops] eqn:Et; [discriminate|].
    assert (Hp' : forall e, ~ In (DoPrintln e) ops)
      by (intros e H; apply (Hp e); right; exact H).
    destruct op as [| | |e|[|]|].
    + injection Hstep as <-. cbn in *. auto.
    + injection Hstep as <-. cbn in *. auto.
    + injection Hstep as <-. rewrite Hok.
      cbn [caller_out caller_err pipe_out pipe_err child todo fst snd starts]
        in *.
      destruct (child s); cbn [fst snd] in *; try lia.
      repeat split; auto. lia.
    + destruct (Hp e). left. reflexivity.
    + injection Hstep as <-. cbn in *. auto.
    + injection Hstep as <-. cbn in *. auto.
    + destruct (child s) eqn:Ec; [|discriminate|];
        injection Hstep as <-; cbn in *; rewrite ?Ec; cbn; auto.
  - destruct (child s) as [|[|c out] err|] eqn:Ec; try discriminate.
    injection Hstep as <-. cbn in *. repeat split; auto.
    rewrite append_snoc. exact Ho.
  - destruct (child s) as [|out [|c err]|] eqn:Ec; try discriminate.
    injection Hstep as <-. cbn in *. repeat split; auto.
    rewrite append_snoc. exact He.
  - destruct (child s) as [|[|? ?] [|? ?]|] eqn:Ec; try discriminate.
    injection Hstep as <-. cbn in *. auto.
  - destruct (copier_out s); [|discriminate].
    destruct (closed s); [discriminate|].
    destruct (pipe_out s) as [|c rest] eqn:Ep; [discriminate|].
    injection Hstep as <-. cbn in *. repeat split; auto.
    rewrite append_snoc. exact Ho.
  - destruct (copier_err s); [|discriminate].
    destruct (closed s); [discriminate|].
    destruct (pipe_err s) as [|c rest] eqn:Ep; [discriminate|].
    injection Hstep as <-. cbn in *. repeat split; auto.
    rewrite append_snoc. exact He.
Qed.

Lemma conserved_reachable (x : Exec) (s : Sys) :
  succeeds x -> reachable x s -> conserved x s.
Proof.
  intros Hx [sched H].
  exact (exec_invariant (conserved x) x
           (fun a s1 s2 => conserved_step x a s1 s2 (proj2 (proj2 Hx)))
           sched (init x) s (conserved_init x Hx) H).
Qed.

Lemma returned_todo (s : Sys) : returned s = true -> todo s = [].
Proof.
  unfold returned. destruct (todo s); [reflexivity | discriminate].
Qed.

Lemma returned_facts (x : Exec) (s : Sys) :
  reachable x s -> returned s = true ->
  closed s = true /\
  (forall out err, child s <> Running out err) /\
  (Start_err x = None -> child s = Gone).
Proof.
  intros Hr Hret.
  destruct (positioned_reachable x s Hr) as (_ & Hp & Hs).
  pose proof (returned_todo s Hret) as Ht.
  destruct (Hp Ht) as [Hc Hn].
  split; [exact Hc|]. split; [exact Hn|].
  intros Hok. destruct (child s) as [|o e|] eqn:Ec.
  - specialize (Hs Hok eq_refl). rewrite Ht in Hs. destruct Hs.
  - destruct (Hn o e eq_refl).
  - reflexivity.
Qed.

End RelayInvariants.

(** X20.  When no call into [os/exec] fails, the relay neither reorders,
    duplicates nor makes up bytes: at every moment of an invocation, what
    has reached a stream of the caller, followed by what the pipe holds,
    followed by what the child has yet to write, is what the child writes
    to that stream; so the bytes on the caller's stream are always the
    first bytes the child wrote, in order. *)
Theorem relay_conserves_bytes (x : Relay.Exec) (s : Relay.Sys) :
  Relay.succeeds x -> Relay.reachable x s ->
  Relay.caller_out s ++ Relay.pipe_out s
    ++ fst (Relay.pending x s) = Relay.child_stdout x /\
  Relay.caller_err s ++ Relay.pipe_err s
    ++ snd (Relay.pending x s) = Relay.child_stderr x.
Proof.
  intros Hx Hr.
  destruct (RelayInvariants.conserved_reachable x s Hx Hr) as (Ho & He & _).
  split; assumption.
Qed.

Lemma relay_conserves_bytes_witness :
  "" ++ "x" ++ "" = Relay.child_stdout Relay.quick_child /\
  "" ++ "y" ++ "" = Relay.child_stderr Relay.quick_child.
Proof.
  assert (Hx : Relay.succeeds Relay.quick_child)
    by (repeat split).
  assert (Hr : Relay.reachable Relay.quick_child
                 (Relay.mkSys [] Relay.Gone "x" "y" true true true "" "")).
  { exists [Relay.Caller; Relay.Caller; Relay.Caller; Relay.Caller;
            Relay.Caller; Relay.ChildOut; Relay.ChildErr;
            Relay.ChildExit; Relay.Caller].
    vm_compute. reflexivity. }
  exact (relay_conserves_bytes Relay.quick_child _ Hx Hr).
Defined.

(** X21.  [executeGoCommand] returns only after [Wait]: when it has
    returned the pipes are closed and the child does not run, and when
    [Start] succeeded the child has exited.  If moreover no call into
    [os/exec] failed, the bytes missing on the caller's streams at that
    moment are exactly the bytes left in the pipes. *)
Theorem relay_returns_after_child (x : Relay.Exec) (s : Relay.Sys) :
  Relay.reachable x s -> Relay.returned s = true ->
  Relay.closed s = true /\
  (forall out err, Relay.child s <> Relay.Running out err) /\
  (Relay.Start_err x = None -> Relay.child s = Relay.Gone) /\
  (Relay.succeeds x ->
   Relay.caller_out s ++ Relay.pipe_out s = Relay.child_stdout x /\
   Relay.caller_err s ++ Relay.pipe_err s = Relay.child_stderr x).
Proof.
  intros Hr Hret.
  destruct (RelayInvariants.returned_facts x s Hr Hret) as (Hc & Hn & Hg).
  split; [exact Hc|]. split; [exact Hn|]. split; [exact Hg|].
  intros Hx.
  destruct (RelayInvariants.conserved_reachable x s Hx Hr) as (Ho & He & _).
  unfold Relay.pending in *.
  rewrite (Hg (proj2 (proj2 Hx))) in *. cbn [fst snd] in *.
  rewrite !append_empty in *. split; assumption.
Qed.

Lemma relay_returns_after_child_witness :
  Relay.closed (Relay.mkSys [] Relay.Gone "x" "y" true true true "" "")
  = true.
Proof.
  assert (Hr : Relay.reachable Relay.quick_child
                 (Relay.mkSys [] Relay.Gone "x" "y" true true true "" "")).
  { exists [Relay.Caller; Relay.Caller; Relay.Caller; Relay.Caller;
            Relay.Caller; Relay.ChildOut; Relay.ChildErr;
            Relay.ChildExit; Relay.Caller].
    vm_compute. reflexivity. }
  exact (proj1 (relay_returns_after_child Relay.quick_child _ Hr eq_refl)).
Defined.



Module RelaySchedules.
Import Relay.

Lemma exec_app (x : Exec) (l1 l2 : list Actor) (s s1 : Sys) :
  exec x l1 s = Some s1 -> exec x (l1 ++ l2) s = exec x l2 s1.
Proof.
  revert s. induction l1 as [|a l1 IH]; intros s; cbn [exec app].
  - intros [= <-]. reflexivity.
  - destruct (step x a s) as [s'|]; [apply IH | discriminate].
Qed.

Lemma pump_out (x : Exec) (ops : list Op) (out err pe co ce : string)
      (b : bool) :
  exec x (alternate ChildOut CopyOut (String.length out))
       (mkSys ops (Running out err) "" pe false true b co ce)
  = Some (mkSys ops (Running "" err) "" pe false true b (co ++ out) ce).
Proof.
  revert co. induction out as [|c out IH]; intros co.
  - cbn. rewrite append_empty. reflexivity.
  - cbn [String.length alternate exec step child todo pipe_out pipe_err
         closed copier_out copier_err caller_out caller_err append].
    rewrite IH, append_snoc. reflexivity.
Qed.

Lemma pump_err (x : Exec) (ops : list Op) (out err po co ce : string)
      (b : bool) :
  exec x (alternate ChildErr CopyErr (String.length err))
       (mkSys ops (Running out err) po "" false b true co ce)
  = Some (mkSys ops (Running out "") po "" false b true co (ce ++ err)).
Proof.
  revert ce. induction err as [|c err IH]; intros ce.
  - cbn. rewrite append_empty. reflexivity.
  - cbn [String.length alternate exec step child todo pipe_out pipe_err
         closed copier_out copier_err caller_out caller_err append].
    rewrite IH, append_snoc. reflexivity.
Qed.

End RelaySchedules.

(** X23.  When no call into [os/exec] fails, the relay can always get
    everything through: under the schedule in which each byte is copied as
    soon as the child has written it, [executeGoCommand] returns with both
    streams drained, whatever the child writes. *)
Theorem relay_can_drain (x : Relay.Exec) :
  Relay.succeeds x ->
  Relay.exec x (Relay.patient x) (Relay.init x)
  = Some (Relay.mkSys [] Relay.Gone "" "" true true true
                      (Relay.child_stdout x) (Relay.child_stderr x)) /\
  Relay.drained x
    (Relay.mkSys [] Relay.Gone "" "" true true true
                 (Relay.child_stdout x) (Relay.child_stderr x)).
Proof.
  intros (H1 & H2 & H3). split; [|split; reflexivity].
  unfold Relay.patient.
  rewrite (RelaySchedules.exec_app x _ _ (Relay.init x)
             (Relay.mkSys [Relay.DoWait]
                (Relay.Running (Relay.child_stdout x) (Relay.child_stderr x))
                "" "" false true true "" "")).
  2:{ unfold Relay.init, Relay.executeGoCommand. rewrite H1, H2, H3.
      cbn. rewrite H3. reflexivity. }
  rewrite (RelaySchedules.exec_app x _ _ _ _
             (RelaySchedules.pump_out x _ _ _ _ _ _ _)).
  rewrite (RelaySchedules.exec_app x _ _ _ _
             (RelaySchedules.pump_err x _ _ _ _ _ _ _)).
  reflexivity.
Qed.

Lemma relay_can_drain_witness :
  Relay.exec Relay.quick_child
             [Relay.Caller; Relay.Caller; Relay.Caller; Relay.Caller;
              Relay.Caller; Relay.ChildOut; Relay.CopyOut; Relay.ChildErr;
              Relay.CopyErr; Relay.ChildExit; Relay.Caller]
             (Relay.init Relay.quick_child)
  = Some (Relay.mkSys [] Relay.Gone "" "" true true true "x" "y").
Proof.
  assert (Hx : Relay.succeeds Relay.quick_child)
    by (repeat split).
  exact (proj1 (relay_can_drain Relay.quick_child Hx)).
Defined.

(** X24.  In a process that has just started and initialized, a first
    argument other than [help] that names no runnable command makes the
    process end with status 2 exactly: the error goes to standard error,
    [exit] is entered once with nothing to clean up, and no handler is
    called. *)
Theorem unknown_command_status (Handler Action Ext : Type)
        (rt : Runtime Handler Action Ext) (cs : list (Command Handler))
        (e : Ext) (g1 : Globals Handler Action Ext) (arg0 : string)
        (rest : list string) :
  initialize rt (start Action cs e) = (Returned true, mkWorld g1 []) ->
  arg0 <> "help" ->
  (forall c, In c (commands g1) -> Name c = arg0 -> Run c = None) ->
  run rt cs e (arg0 :: rest)
  = (Exited 2, mkWorld (unknown_globals rt arg0 g1) [CallExit]) /\
  Stderr (unknown_globals rt arg0 g1)
  = "gpm: unknown subcommand " ++ fmt_q rt arg0 ++ nl
    ++ "Run 'gpm help' for usage." ++ nl /\
  Stdout (unknown_globals rt arg0 g1) = "".
Proof.
  intros Hinit Hne Hnone.
  destruct (initialize_spec _ _ _ rt (start Action cs e))
    as (b & g' & He & (K1 & K2 & K3 & _) & HS).
  change (calls (start Action cs e)) with (@nil (Call Handler Action)) in He.
  rewrite Hinit in He. injection He as <- <-.
  cbn in K1, K2, K3. specialize (HS eq_refl). cbn in HS.
  split; [|split].
  - unfold run.
    rewrite (main_unknown _ _ _ rt (start Action cs e) g1 Hinit arg0 rest
               Hne Hnone).
    rewrite exit_all_return.
    + cbn [globals calls]. unfold unknown_globals at 1 2 3.
      cbn [atexitFuncs set_exitStatus set_Stderr]. rewrite K2.
      unfold after_actions. cbn [fold_left map app].
      unfold unknown_globals. cbn [exitStatus set_exitStatus].
      rewrite K1. cbn [atexitFuncs set_exitStatus set_Stderr].
      rewrite ?K2. reflexivity.
    + cbn [globals unknown_globals atexitFuncs set_exitStatus set_Stderr].
      rewrite K2. intros f g [].
  - cbn. rewrite K3. reflexivity.
  - cbn. exact HS.
Qed.

Lemma unknown_command_status_witness :
  fst (run Sample.rt Sample.registry [] ["zzz"]) = Exited 2 /\
  calls (snd (run Sample.rt Sample.registry [] ["zzz"])) = [CallExit].
Proof.
  destruct (unknown_command_status nat nat (list nat) Sample.rt
              Sample.registry []
              (globals (snd (initialize Sample.rt
                               (start nat Sample.registry []))))
              "zzz" [] eq_refl ltac:(discriminate)
              ltac:(intros c [<-|[<-|[<-|[]]]]; discriminate)) as [H _].
  rewrite H. split; reflexivity.
Defined.
